(** * Token-bucket rate limiter of [main.py]

    A shallow embedding of the admission-control core of [main.py]:
    the key derivation [get_client_key] and the per-key token bucket
    [check_rate_limit] over the module-level dictionary
    [rate_limit_store].

    Modelling choices.
    - The dictionary is a [gmap string bucket]; the function mutates it in
      place, which is written here as explicit state passing: the store
      goes in, the updated store comes out next to the returned value.
    - [time.time()] is an input of every call (the clock reading [now]).
    - Clock readings and token counts are Python floats.  They are
      modelled as exact rationals ([Q]): rounding is not part of this
      model.  [Binary64] at the end of the definitions is the same
      function in IEEE-754 double arithmetic; it replays the concrete
      executions, and shows the runs in which rounding decides (a
      bucket in debt, an elapsed time just short of the hint).  The
      statements over [Q] carry the hypotheses that keep those runs
      out.
    - The two configuration constants of the module are the fields of a
      record [config]; [main_config] holds the values written in the
      source. *)

From Stdlib Require Import ZArith QArith Qround Qminmax Lqa Lia List Sorted.
From Stdlib Require Import Floats Ascii String.
From stdpp Require Import base gmap strings pretty.

Local Open Scope Q_scope.

(** ** Python arithmetic on exact rationals *)

(** [min(a, b)] with two arguments: the first one is kept unless the
    second is strictly smaller. *)
Definition py_min (a b : Q) : Q :=
  match b ?= a with
  | Lt => b
  | _ => a
  end.

(** [int(x)]: truncation towards zero. *)
Definition py_int (x : Q) : Z := Z.quot (Qnum x) (Z.pos (Qden x)).

(** The exceptions the arithmetic of [check_rate_limit] can raise.  On
    exact rationals only the first one exists; the other two are what
    [int] raises on an infinite float and on a NaN. *)
Inductive exn : Set := ZeroDivisionError | OverflowError | ValueError.

(** [a / b]: true division, raising on a zero divisor. *)
Definition py_truediv (a b : Q) : exn + Q :=
  if Qeq_bool b 0 then inl ZeroDivisionError else inr (a / b).

(** ** Configuration (lines 12-14) *)

Record config : Set := Config {
  RATE_LIMIT : Z;    (* per minute *)
  BURST_LIMIT : Z    (* bucket capacity *)
}.

(** [REFILL_RATE = RATE_LIMIT / 60], tokens per second. *)
Definition REFILL_RATE (cfg : config) : Q := inject_Z (RATE_LIMIT cfg) / 60.

Definition main_config : config := {| RATE_LIMIT := 43; BURST_LIMIT := 11 |}.

(** ** Key derivation (lines 39-41) *)

(** [ip] stands for [request.client.host]. *)
Definition get_client_key (ip user_id : string) : string :=
  user_id +:+ "-" +:+ ip.

(** ** The bucket store (line 17) and [check_rate_limit] (lines 44-67) *)

Record bucket : Set := Bucket { tokens : Q; last_refill : Q }.

Abbreviation rate_limit_store := (gmap string bucket).

(** What a call hands back: the returned pair, or the exception raised. *)
Inductive outcome : Set :=
| Return (allowed : bool) (retry_after : Z)
| Raise (e : exn).

Section Limiter.
Context (cfg : config).

(** Lines 47-53: the bucket the call works on; a key seen for the
    first time gets a full bucket stamped with the current time. *)
Definition lookup_bucket (now : Q) (key : string)
    (store : rate_limit_store) : bucket :=
  match store !! key with
  | Some bucket => bucket
  | None => {| tokens := inject_Z (BURST_LIMIT cfg); last_refill := now |}
  end.

(** Lines 56-59: the token count after the refill step. *)
Definition refilled_tokens (now : Q) (b : bucket) : Q :=
  let elapsed := now - last_refill b in
  let refill := elapsed * REFILL_RATE cfg in
  py_min (inject_Z (BURST_LIMIT cfg)) (tokens b + refill).

Definition check_rate_limit (now : Q) (key : string)
    (store : rate_limit_store) : rate_limit_store * outcome :=
  let bucket := lookup_bucket now key store in
  (* Refill tokens *)
  let bucket := {| tokens := refilled_tokens now bucket; last_refill := now |} in
  if Qle_bool 1 (tokens bucket) then
    let bucket := {| tokens := tokens bucket - 1;
                     last_refill := last_refill bucket |} in
    (<[key := bucket]> store, Return true 0)
  else
    match py_truediv (1 - tokens bucket) (REFILL_RATE cfg) with
    | inl e => (<[key := bucket]> store, Raise e)
    | inr retry_after =>
        (<[key := bucket]> store, Return false (py_int retry_after + 1))
    end.

(** A sequence of calls, each with its own clock reading, threaded
    through the store; the outcomes are listed in call order. *)
Fixpoint run (calls : list (Q * string)) (store : rate_limit_store)
    : rate_limit_store * list outcome :=
  match calls with
  | [] => (store, [])
  | (now, key) :: rest =>
      let '(store1, out) := check_rate_limit now key store in
      let '(store2, outs) := run rest store1 in
      (store2, out :: outs)
  end.

End Limiter.

(** ** Notions used by the statements *)

(** The configuration the specification calls well-formed: a capacity of
    at least one token and a positive refill rate. *)
Definition valid_config (cfg : config) : Prop :=
  (1 <= BURST_LIMIT cfg)%Z /\ (0 < RATE_LIMIT cfg)%Z.

(** Every bucket of the store holds between zero and [BURST_LIMIT] tokens. *)
Definition tokens_bounded (cfg : config) (store : rate_limit_store) : Prop :=
  forall key b, store !! key = Some b ->
    0 <= tokens b <= inject_Z (BURST_LIMIT cfg).

(** The clock never goes back along a sequence of calls. *)
Definition clock_monotone (calls : list (Q * string)) : Prop :=
  Sorted Qle (calls.*1).

(** No bucket of the store was refilled later than [t]. *)
Definition refilled_by (t : Q) (store : rate_limit_store) : Prop :=
  forall key b, store !! key = Some b -> last_refill b <= t.

(** Does the separator of [get_client_key] occur in the string? *)
Fixpoint has_dash (s : string) : bool :=
  match s with
  | EmptyString => false
  | String c s' => if Ascii.eqb c "-"%char then true else has_dash s'
  end.

(** *** The specification's wording of two steps

    These two definitions follow the text of the specification, not the
    source; they are what the code is compared with. *)

(** Step 2-3 of the specification: the elapsed time is clamped at zero
    before the refill. *)
Definition spec_refilled_tokens (cfg : config) (now : Q) (b : bucket) : Q :=
  let elapsed := Qmax 0 (now - last_refill b) in
  Qmin (inject_Z (BURST_LIMIT cfg)) (tokens b + elapsed * REFILL_RATE cfg).


(** ** The same function in IEEE-754 double arithmetic

    [check_rate_limit] once more, for the constants of the source, with
    every number a binary64 float as in CPython, so that a concrete
    execution can be replayed bit for bit.  The integers of the source
    (11, 1, 43, 60 and the token counts 11 down to 0) are exactly
    representable and are written as floats. *)
Module Binary64.
Local Open Scope float_scope.

Definition RATE_LIMIT : float := 43.
Definition BURST_LIMIT : float := 11.
Definition REFILL_RATE : float := RATE_LIMIT / 60.

Record bucket : Set := Bucket { tokens : float; last_refill : float }.

Definition py_min (a b : float) : float := if b <? a then b else a.

(** [int(x)] on a float: truncation towards zero, an error on an
    infinity or a NaN. *)
Definition py_int (x : float) : exn + Z :=
  match Prim2SF x with
  | S754_zero _ => inr 0%Z
  | S754_finite s m e => inr (cond_Zopp s (Z.shiftl (Z.pos m) e))
  | S754_infinity _ => inl OverflowError
  | S754_nan => inl ValueError
  end.

Definition check_rate_limit (now : float) (key : string)
    (store : gmap string bucket) : gmap string bucket * outcome :=
  let bucket :=
    match store !! key with
    | Some bucket => bucket
    | None => {| tokens := BURST_LIMIT; last_refill := now |}
    end in
  let elapsed := now - last_refill bucket in
  let refill := elapsed * REFILL_RATE in
  let bucket := {| tokens := py_min BURST_LIMIT (tokens bucket + refill);
                   last_refill := now |} in
  if 1 <=? tokens bucket then
    let bucket := {| tokens := tokens bucket - 1;
                     last_refill := last_refill bucket |} in
    (<[key := bucket]> store, Return true 0)
  else
    let retry_after := (1 - tokens bucket) / REFILL_RATE in
    match py_int retry_after with
    | inl e => (<[key := bucket]> store, Raise e)
    | inr n => (<[key := bucket]> store, Return false (n + 1))
    end.

Fixpoint run (calls : list (float * string)) (store : gmap string bucket)
    : gmap string bucket * list outcome :=
  match calls with
  | [] => (store, [])
  | (now, key) :: rest =>
      let '(store1, out) := check_rate_limit now key store in
      let '(store2, outs) := run rest store1 in
      (store2, out :: outs)
  end.

(** The token count and time stamp stored under a key. *)
Definition stored (key : string) (store : gmap string bucket)
    : option (float * float) :=
  (fun b => (tokens b, last_refill b)) <$> store !! key.
End Binary64.

(** ** Reference executions

    The key of the specification's example scenario, and two stores the
    source reaches from the empty dictionary: after one call at clock
    reading 100, and after the burst of eleven calls at clock reading 0
    that empties the bucket. *)
Definition demo_key : string := "u1-1.2.3.4".

Definition store_after_first_call : rate_limit_store :=
  fst (check_rate_limit main_config 100 demo_key ∅).

Definition store_after_burst : rate_limit_store :=
  fst (run main_config (replicate 11 (0, demo_key)) ∅).

(** ** The request handler (lines 30-33 and 70-136)

    [validate_security] with what it reads and writes made explicit:
    the clock, the peer of the connection ([request.client], reduced to
    its [host]; [None] when the server hands over no peer address), the
    parsed body, the bucket store and the log.  Python values that end
    up in a JSON body or in a log record are [pyval]s; a dictionary
    literal is the list of its items in the order they are written. *)

(** The request model (lines 30-33): three strings. *)
Record SecurityRequest : Set := {
  userId : string;
  input : string;
  category : string
}.

#[warnings="-register-all"]
Inductive pyval : Set :=
| PyNone
| PyBool (b : bool)
| PyInt (z : Z)
| PyFloat (q : Q)
| PyStr (s : string)
| PyDict (d : list (string * pyval)).

Abbreviation pydict := (list (string * pyval)).

(** [d.get(key)]. *)
Fixpoint dict_get (key : string) (d : pydict) : option pyval :=
  match d with
  | [] => None
  | (k, v) :: d' => if String.eqb k key then Some v else dict_get key d'
  end.

(** Truth value of a string: only the empty string is false. *)
Definition truthy (s : string) : bool :=
  match s with
  | EmptyString => false
  | String _ _ => true
  end.

(** A [JSONResponse]; the dictionary returned on line 119 is sent by the
    framework as a 200 response without extra headers. *)
Record response : Set := {
  status_code : Z;
  headers : list (string * string);
  content : pydict
}.

(** Lines 70-74: one record, holding the dictionary that is logged, is
    added at the end of the log. *)
Definition log_security_event (event_type : string) (details : pydict)
    (log : list pydict) : list pydict :=
  log ++ [[("event_type"%string, PyStr event_type);
           ("details"%string, PyDict details)]].

Section Endpoint.
Context (cfg : config).

(** Lines 81-136.  The [try] block catches whatever is raised inside
    it: by [get_client_key] when the request has no peer, and by
    [check_rate_limit], in which case the store keeps what the call had
    written before raising. *)
Definition validate_security (now : Q) (client : option string)
    (data : SecurityRequest) (state : rate_limit_store * list pydict)
    : (rate_limit_store * list pydict) * response :=
  let '(store, log) := state in
  (* the [except Exception] block, lines 126-136 *)
  let internal_error (store : rate_limit_store) :=
    ((store, log_security_event "SYSTEM_ERROR" [] log),
     {| status_code := 500;
        headers := [];
        content := [("blocked"%string, PyBool true);
                    ("reason"%string, PyStr "Internal validation error");
                    ("sanitizedOutput"%string, PyNone);
                    ("confidence"%string, PyFloat 0.90)] |}) in
  (* Basic validation *)
  if negb (truthy (userId data)) || negb (truthy (input data))
     || negb (truthy (category data)) then
    ((store, log),
     {| status_code := 400;
        headers := [];
        content := [("blocked"%string, PyBool true);
                    ("reason"%string, PyStr "Invalid request format");
                    ("sanitizedOutput"%string, PyNone);
                    ("confidence"%string, PyFloat 0.98)] |})
  else
    match client with
    | None =>
        (* line 40: [request.client.host] on None raises AttributeError *)
        internal_error store
    | Some client_host =>
        let key := get_client_key client_host (userId data) in
        match check_rate_limit cfg now key store with
        | (store, Return allowed retry_after) =>
            if negb allowed then
              let log := log_security_event "RATE_LIMIT_BLOCK"
                           [("userId"%string, PyStr (userId data));
                            ("retry_after"%string, PyInt retry_after)] log in
              ((store, log),
               {| status_code := 429;
                  headers := [("Retry-After"%string, pretty retry_after)];
                  content := [("blocked"%string, PyBool true);
                              ("reason"%string,
                               PyStr "Too many requests. Please retry later.");
                              ("sanitizedOutput"%string, PyNone);
                              ("retryAfter"%string, PyInt retry_after);
                              ("confidence"%string, PyFloat 0.99)] |})
            else
              (* Passed security checks *)
              ((store, log),
               {| status_code := 200;
                  headers := [];
                  content := [("blocked"%string, PyBool false);
                              ("reason"%string,
                               PyStr "Input passed all security checks");
                              ("sanitizedOutput"%string, PyStr (input data));
                              ("confidence"%string, PyFloat 0.95)] |})
        | (store, Raise _) => internal_error store
        end
    end.

(** Requests handled one after the other; each comes with the clock
    reading at which it is handled and its peer. *)
Fixpoint serve (requests : list (Q * option string * SecurityRequest))
    (state : rate_limit_store * list pydict)
    : (rate_limit_store * list pydict) * list response :=
  match requests with
  | [] => (state, [])
  | (now, client, data) :: rest =>
      let '(state1, resp) := validate_security now client data state in
      let '(state2, resps) := serve rest state1 in
      (state2, resp :: resps)
  end.

End Endpoint.

(** ** Notions used by the further statements *)

(** The body passes the basic validation of line 85. *)
Definition well_formed (data : SecurityRequest) : bool :=
  truthy (userId data) && truthy (input data) && truthy (category data).

(** The calls of [check_rate_limit] a list of requests gives rise to:
    one for every well-formed request that has a peer. *)
Fixpoint limiter_calls (requests : list (Q * option string * SecurityRequest))
    : list (Q * string) :=
  match requests with
  | [] => []
  | (now, Some client_host, data) :: rest =>
      if well_formed data
      then (now, get_client_key client_host (userId data)) :: limiter_calls rest
      else limiter_calls rest
  | (_, None, _) :: rest => limiter_calls rest
  end.

(** The responses whose handling writes a log record. *)
Definition is_logged (resp : response) : bool :=
  (status_code resp =? 429)%Z || (status_code resp =? 500)%Z.

(** Reference inputs of the further statements: the burst followed by
    a retry two seconds later, a well-formed request of the client
    behind [demo_key], and a request with an empty [input]. *)
Definition burst_then_retry : list (Q * string) :=
  replicate 12 (0, demo_key) ++ [(2, demo_key)].

Definition demo_request : SecurityRequest :=
  {| userId := "u1"; input := "hello"; category := "chat" |}.

Definition empty_input_request : SecurityRequest :=
  {| userId := "u1"; input := ""; category := "chat" |}.

(** * Properties *)

(** ** Arithmetic helpers *)

Lemma py_min_cases (a b : Q) :
  (b < a /\ py_min a b = b) \/ (a <= b /\ py_min a b = a).
Proof.
  unfold py_min. destruct (b ?= a) eqn:E.
  - right. split; [|reflexivity]. apply Qeq_alt in E. rewrite E. apply Qle_refl.
  - left. split; [|reflexivity]. now apply Qlt_alt.
  - right. split; [|reflexivity]. apply Qlt_le_weak. now apply Qgt_alt.
Qed.

Lemma py_min_le_l (a b : Q) : py_min a b <= a.
Proof. destruct (py_min_cases a b) as [[H ->]|[H ->]]; lra. Qed.

Lemma py_min_le_r (a b : Q) : py_min a b <= b.
Proof. destruct (py_min_cases a b) as [[H ->]|[H ->]]; lra. Qed.

Lemma py_min_glb (a b c : Q) : c <= a -> c <= b -> c <= py_min a b.
Proof. intros. destruct (py_min_cases a b) as [[H1 ->]|[H1 ->]]; lra. Qed.

Lemma py_min_r (a b : Q) : b <= a -> py_min a b == b.
Proof. intros. destruct (py_min_cases a b) as [[H1 ->]|[H1 ->]]; lra. Qed.

(** On non-negative arguments [int] is the floor. *)
Lemma py_int_floor (x : Q) : 0 <= x -> py_int x = Qfloor x.
Proof.
  destruct x as [n d]. unfold Qle, py_int, Qfloor. simpl. intros H.
  apply Z.quot_div_nonneg; lia.
Qed.

Lemma REFILL_RATE_pos cfg : (0 < RATE_LIMIT cfg)%Z -> 0 < REFILL_RATE cfg.
Proof.
  intros H. unfold REFILL_RATE.
  apply Qlt_shift_div_l; [reflexivity|].
  rewrite Qmult_0_l. change 0 with (inject_Z 0). now rewrite <- Zlt_Qlt.
Qed.

Lemma capacity_ge_1 cfg : valid_config cfg -> 1 <= inject_Z (BURST_LIMIT cfg).
Proof. intros [H _]. change 1 with (inject_Z 1). now rewrite <- Zle_Qle. Qed.

Lemma rate_pos cfg : valid_config cfg -> 0 < REFILL_RATE cfg.
Proof. intros [_ H]. now apply REFILL_RATE_pos. Qed.

(** ** One call, case by case *)

Section Call.
Context (cfg : config).
Implicit Types (now : Q) (key : string) (store : rate_limit_store).

Local Abbreviation capacity := (inject_Z (BURST_LIMIT cfg)).
Local Abbreviation rate := (REFILL_RATE cfg).
Local Abbreviation post_refill now key store :=
  (refilled_tokens cfg now (lookup_bucket cfg now key store)).

Lemma check_rate_limit_admit now key store :
  1 <= post_refill now key store ->
  check_rate_limit cfg now key store =
    (<[key := Bucket (post_refill now key store - 1) now]> store,
     Return true 0).
Proof.
  intros H. unfold check_rate_limit. cbn [tokens last_refill].
  apply Qle_bool_iff in H. now rewrite H.
Qed.

Lemma check_rate_limit_reject now key store :
  post_refill now key store < 1 -> ~ rate == 0 ->
  check_rate_limit cfg now key store =
    (<[key := Bucket (post_refill now key store) now]> store,
     Return false (py_int ((1 - post_refill now key store) / rate) + 1)).
Proof.
  intros H Hr. unfold check_rate_limit, py_truediv. cbn [tokens last_refill].
  destruct (Qle_bool 1 _) eqn:E.
  - apply Qle_bool_iff in E. lra.
  - destruct (Qeq_bool rate 0) eqn:E0; [|reflexivity].
    apply Qeq_bool_iff in E0. contradiction.
Qed.

(** Whatever the outcome, the store is the old one with the bucket of
    [key] overwritten, stamped with [now]. *)
Lemma check_rate_limit_store now key store :
  exists t, fst (check_rate_limit cfg now key store) = <[key := Bucket t now]> store.
Proof.
  unfold check_rate_limit. cbn [tokens last_refill].
  destruct (Qle_bool 1 _); [eexists; reflexivity|].
  destruct (py_truediv _ _); eexists; reflexivity.
Qed.

(** Reading a returned rejection backwards. *)
Lemma check_rate_limit_rejected now key store store' r :
  check_rate_limit cfg now key store = (store', Return false r) ->
  post_refill now key store < 1 /\ ~ rate == 0 /\
  store' = <[key := Bucket (post_refill now key store) now]> store /\
  r = (py_int ((1 - post_refill now key store) / rate) + 1)%Z.
Proof.
  unfold check_rate_limit, py_truediv. cbn [tokens last_refill].
  destruct (Qle_bool 1 _) eqn:E; [discriminate|].
  destruct (Qeq_bool rate 0) eqn:E0; [discriminate|].
  intros [= <- <-]. repeat split.
  - apply Qnot_le_lt. intros H. apply Qle_bool_iff in H. congruence.
  - intros H. apply Qeq_bool_iff in H. congruence.
Qed.

Lemma lookup_bucket_insert now key store b :
  lookup_bucket cfg now key (<[key := b]> store) = b.
Proof. unfold lookup_bucket. now rewrite lookup_insert_eq. Qed.

Lemma lookup_bucket_agree now key store1 store2 :
  store1 !! key = store2 !! key ->
  lookup_bucket cfg now key store1 = lookup_bucket cfg now key store2.
Proof. unfold lookup_bucket. now intros ->. Qed.

End Call.

(** ** Effects of one call on the store *)

Section Store_effects.
Context (cfg : config).
Implicit Types (now : Q) (key : string) (store : rate_limit_store).

(** C7: whatever a call returns (admission, rejection, or even an
    exception), the bucket of the key it was called with is in the
    store afterwards and its [last_refill] is the clock reading of
    that call. *)
Theorem last_refill_set_to_now now key store :
  exists b, fst (check_rate_limit cfg now key store) !! key = Some b /\
            last_refill b = now.
Proof.
  destruct (check_rate_limit_store cfg now key store) as [t ->].
  exists (Bucket t now). split; [apply lookup_insert_eq | reflexivity].
Qed.

(** C8: a call on [key] leaves the bucket stored under any other key
    as it was (tokens and last_refill), and every key of the store is
    still a key afterwards. *)
Theorem other_keys_untouched now key key' store :
  key' <> key ->
  fst (check_rate_limit cfg now key store) !! key' = store !! key' /\
  dom store ⊆ dom (fst (check_rate_limit cfg now key store)).
Proof.
  intros Hne.
  destruct (check_rate_limit_store cfg now key store) as [t ->]. split.
  - now apply lookup_insert_ne.
  - rewrite dom_insert. set_solver.
Qed.

End Store_effects.

(** ** Rejections *)

Section Rejection.
Context (cfg : config).
Implicit Types (now : Q) (key : string) (store : rate_limit_store).

Local Abbreviation capacity := (inject_Z (BURST_LIMIT cfg)).
Local Abbreviation rate := (REFILL_RATE cfg).

(** The wait computed on a rejection is positive. *)
Lemma wait_pos t : 0 < rate -> t < 1 -> 0 < (1 - t) / rate.
Proof.
  intros Hr Ht. apply Qlt_shift_div_l; [assumption|]. lra.
Qed.

(** C10: a rejecting call stores exactly the post-refill token count
    [min(capacity, tokens + elapsed * rate)], nothing is subtracted;
    and when the clock reading is not earlier than the bucket's
    [last_refill], the stored count is not below the count before the
    call.  [b] is the bucket the call works on. *)
Theorem rejection_subtracts_nothing now key store store' r :
  valid_config cfg ->
  check_rate_limit cfg now key store = (store', Return false r) ->
  let b := lookup_bucket cfg now key store in
  exists b', store' !! key = Some b' /\
    tokens b' = py_min capacity (tokens b + (now - last_refill b) * rate) /\
    (last_refill b <= now -> tokens b <= tokens b').
Proof.
  intros Hcfg Hcall b.
  apply check_rate_limit_rejected in Hcall as (Hlt & _ & -> & _).
  eexists. split; [apply lookup_insert_eq|]. cbn [tokens].
  split; [reflexivity|]. intros Hclock.
  fold b in Hlt |- *. unfold refilled_tokens in Hlt |- *.
  pose proof (capacity_ge_1 cfg Hcfg) as Hc. pose proof (rate_pos cfg Hcfg) as Hr.
  destruct (py_min_cases capacity (tokens b + (now - last_refill b) * rate))
    as [[_ E]|[_ E]]; rewrite E in *; [|lra].
  assert (0 <= (now - last_refill b) * rate) by (apply Qmult_le_0_compat; lra).
  lra.
Qed.

(** C5, as the code has it: after a rejection with hint [r] that left
    a token count that is not negative (as every rejection does on a
    clock that never went back), a call on the same key for which the
    elapsed time [now' - now] is at least [r] seconds is admitted,
    provided the bucket of the key was not touched in between (calls on
    other keys may have happened: [store2] only has to hold the same
    bucket under [key]). *)
Theorem retry_after_wait_admits_when_not_in_debt
    now now' key store store' r b' store2 :
  valid_config cfg ->
  check_rate_limit cfg now key store = (store', Return false r) ->
  store' !! key = Some b' ->
  0 <= tokens b' ->
  store2 !! key = Some b' ->
  inject_Z r <= now' - now ->
  snd (check_rate_limit cfg now' key store2) = Return true 0.
Proof.
  intros Hcfg Hcall Hb' Hdebt Hb2 Hwait.
  apply check_rate_limit_rejected in Hcall as (Hlt & _ & -> & ->).
  pose proof (capacity_ge_1 cfg Hcfg) as Hc. pose proof (rate_pos cfg Hcfg) as Hr.
  rewrite lookup_insert_eq in Hb'. injection Hb' as <-. cbn [tokens] in Hdebt.
  set (t := refilled_tokens cfg now (lookup_bucket cfg now key store)) in *.
  rewrite check_rate_limit_admit; [reflexivity|].
  unfold lookup_bucket. rewrite Hb2. unfold refilled_tokens.
  cbn [tokens last_refill].
  set (wait := (1 - t) / rate) in *.
  assert (Hw : 0 < wait) by now apply wait_pos.
  rewrite py_int_floor in Hwait by lra.
  pose proof (Qlt_floor wait) as Hfl.
  assert (Hwr : wait * rate == 1 - t) by (unfold wait; field; lra).
  apply py_min_glb; [assumption|].
  assert (wait * rate < (now' - now) * rate)
    by (apply Qmult_lt_compat_r; [assumption|lra]).
  lra.
Qed.


(** C2, as the code has it: the elapsed time is not clamped.  With a
    clock reading earlier than the bucket's [last_refill] the refill
    amount [(now - last_refill) * rate] is not positive: the refill
    step never raises the token count, and the count the call stores is
    not above the one before the call.  Nothing keeps it from going
    down, below zero too. *)
Theorem backwards_clock_never_raises_tokens now key store b :
  valid_config cfg ->
  store !! key = Some b ->
  now < last_refill b ->
  refilled_tokens cfg now b <= tokens b /\
  exists b', fst (check_rate_limit cfg now key store) !! key = Some b' /\
             tokens b' <= tokens b.
Proof.
  intros Hcfg Hb Hback. pose proof (rate_pos cfg Hcfg) as Hr.
  assert (Hneg : (now - last_refill b) * rate <= 0).
  { assert (0 <= (last_refill b - now) * rate); [|lra].
    apply Qmult_le_0_compat; lra. }
  assert (Hdrop : refilled_tokens cfg now b <= tokens b).
  { unfold refilled_tokens.
    pose proof (py_min_le_r capacity (tokens b + (now - last_refill b) * rate)).
    lra. }
  split; [assumption|].
  assert (Hl : lookup_bucket cfg now key store = b)
    by (unfold lookup_bucket; now rewrite Hb).
  destruct (Qlt_le_dec (refilled_tokens cfg now b) 1) as [Hlt|Hge].
  - rewrite check_rate_limit_reject; rewrite ?Hl; [|assumption|lra].
    eexists. split; [apply lookup_insert_eq|]. assumption.
  - rewrite check_rate_limit_admit; rewrite ?Hl; [|assumption].
    eexists. split; [apply lookup_insert_eq|]. cbn [tokens]. lra.
Qed.

End Rejection.

(** ** Sequences of calls *)

Lemma Sorted_take {A} (R : A -> A -> Prop) (l : list A) (n : nat) :
  Sorted R l -> Sorted R (take n l).
Proof.
  intros H. revert n. induction H as [|a l Hl IH Hd]; intros [|n]; cbn;
    try constructor.
  - apply IH.
  - destruct Hd as [|b l' Hab]; destruct n; cbn; now constructor.
Qed.

Section Sequences.
Context (cfg : config).
Implicit Types (now : Q) (key : string) (store : rate_limit_store).

Local Abbreviation capacity := (inject_Z (BURST_LIMIT cfg)).
Local Abbreviation rate := (REFILL_RATE cfg).

Lemma run_cons now key rest store :
  run cfg ((now, key) :: rest) store =
    (fst (run cfg rest (fst (check_rate_limit cfg now key store))),
     snd (check_rate_limit cfg now key store)
       :: snd (run cfg rest (fst (check_rate_limit cfg now key store)))).
Proof.
  cbn [run]. destruct (check_rate_limit cfg now key store) as [s1 o1].
  cbn [fst snd]. now destruct (run cfg rest s1).
Qed.

Lemma run_app calls1 calls2 store :
  run cfg (calls1 ++ calls2) store =
    (fst (run cfg calls2 (fst (run cfg calls1 store))),
     snd (run cfg calls1 store)
       ++ snd (run cfg calls2 (fst (run cfg calls1 store)))).
Proof.
  revert store. induction calls1 as [|[now key] rest IH]; intros store.
  - cbn. now destruct (run cfg calls2 store).
  - rewrite <- app_comm_cons, !run_cons, IH. reflexivity.
Qed.

(** The capacity bounds every stored count, whatever the clock does. *)
Lemma check_rate_limit_upper now key store :
  (forall k b, store !! k = Some b -> tokens b <= capacity) ->
  forall k b, fst (check_rate_limit cfg now key store) !! k = Some b ->
              tokens b <= capacity.
Proof.
  intros Hinv k b.
  pose proof (py_min_le_l capacity
    (tokens (lookup_bucket cfg now key store)
     + (now - last_refill (lookup_bucket cfg now key store)) * rate)) as Hmin.
  fold (refilled_tokens cfg now (lookup_bucket cfg now key store)) in Hmin.
  unfold check_rate_limit. cbn [tokens last_refill].
  destruct (Qle_bool 1 _); [|destruct (py_truediv _ _)]; cbn [fst];
    (destruct (decide (key = k)) as [->|Hne];
     [rewrite lookup_insert_eq; intros [= <-]; cbn [tokens]; lra
     |rewrite lookup_insert_ne by assumption; apply Hinv]).
Qed.

(** With a clock reading not earlier than any stamp in the store, a
    call keeps every count between zero and the capacity. *)
Lemma check_rate_limit_bounded t now key store :
  valid_config cfg -> t <= now ->
  tokens_bounded cfg store -> refilled_by t store ->
  tokens_bounded cfg (fst (check_rate_limit cfg now key store)) /\
  refilled_by now (fst (check_rate_limit cfg now key store)).
Proof.
  intros Hcfg Htn Hb Hs.
  pose proof (capacity_ge_1 cfg Hcfg) as Hc.
  pose proof (rate_pos cfg Hcfg) as Hr.
  set (b0 := lookup_bucket cfg now key store).
  assert (H0 : 0 <= tokens b0 <= capacity /\ last_refill b0 <= now).
  { unfold b0, lookup_bucket. destruct (store !! key) as [b|] eqn:E.
    - split; [now apply (Hb key)|]. specialize (Hs key b E). lra.
    - cbn. lra. }
  destruct H0 as [H0 H1].
  assert (Hre : 0 <= refilled_tokens cfg now b0 <= capacity).
  { unfold refilled_tokens. split; [|apply py_min_le_l].
    assert (0 <= (now - last_refill b0) * rate) by (apply Qmult_le_0_compat; lra).
    apply py_min_glb; lra. }
  split.
  - intros k b. unfold check_rate_limit. fold b0. cbn [tokens last_refill].
    destruct (Qle_bool 1 _) eqn:E; [apply Qle_bool_iff in E|destruct (py_truediv _ _)];
      cbn [fst];
      (destruct (decide (key = k)) as [->|Hne];
       [rewrite lookup_insert_eq; intros [= <-]; cbn [tokens]; lra
       |rewrite lookup_insert_ne by assumption; apply Hb]).
  - intros k b.
    destruct (check_rate_limit_store cfg now key store) as [t' ->].
    destruct (decide (key = k)) as [->|Hne].
    + rewrite lookup_insert_eq. intros [= <-]. cbn. lra.
    + rewrite lookup_insert_ne by assumption. intros E.
      specialize (Hs k b E). lra.
Qed.

Lemma run_upper calls store :
  (forall k b, store !! k = Some b -> tokens b <= capacity) ->
  forall k b, fst (run cfg calls store) !! k = Some b -> tokens b <= capacity.
Proof.
  revert store. induction calls as [|[now key] rest IH]; intros store Hinv.
  - exact Hinv.
  - rewrite run_cons. cbn [fst]. apply IH.
    now apply check_rate_limit_upper.
Qed.

Lemma run_bounded calls t store :
  valid_config cfg -> Sorted Qle (t :: calls.*1) ->
  tokens_bounded cfg store -> refilled_by t store ->
  tokens_bounded cfg (fst (run cfg calls store)).
Proof.
  intros Hcfg. revert t store.
  induction calls as [|[now key] rest IH]; intros t store Hsort Hb Hs.
  - exact Hb.
  - rewrite run_cons. cbn [fst]. cbn in Hsort.
    apply Sorted_inv in Hsort as [Hsort Hhd]. apply HdRel_inv in Hhd.
    destruct (check_rate_limit_bounded t now key store Hcfg Hhd Hb Hs).
    now apply (IH now).
Qed.

(** C4, as the code has it: starting from the empty store, after each
    call of any sequence of calls (the first [n] of them, for any [n])
    every bucket holds at most [capacity] tokens; and when the clock
    readings of the sequence never go back, every bucket holds between
    zero and [capacity] tokens. *)
Theorem tokens_bounded_on_monotone_clock (calls : list (Q * string)) (n : nat) :
  valid_config cfg ->
  (forall key b, fst (run cfg (take n calls) ∅) !! key = Some b ->
                 tokens b <= capacity) /\
  (clock_monotone calls ->
   tokens_bounded cfg (fst (run cfg (take n calls) ∅))).
Proof.
  intros Hcfg. split.
  - apply run_upper. intros k b. now rewrite lookup_empty.
  - intros Hmono. apply (Sorted_take _ _ n) in Hmono.
    unfold clock_monotone in Hmono. rewrite <- fmap_take in Hmono.
    destruct (take n calls) as [|[now key] rest] eqn:E.
    + intros k b. cbn. now rewrite lookup_empty.
    + apply (run_bounded _ now); try assumption.
      * cbn in Hmono |- *. constructor; [assumption|].
        constructor. apply Qle_refl.
      * intros k b. now rewrite lookup_empty.
      * intros k b. now rewrite lookup_empty.
Qed.

End Sequences.

(** ** A burst at one clock instant *)

Section Burst.
Context (cfg : config).
Implicit Types (now : Q) (key : string) (store : rate_limit_store).

Local Abbreviation capacity := (inject_Z (BURST_LIMIT cfg)).
Local Abbreviation rate := (REFILL_RATE cfg).

(** With no time elapsed and a count within the capacity, the refill
    step leaves the count as it is. *)
Lemma refilled_tokens_same_instant now b :
  last_refill b == now -> tokens b <= capacity ->
  refilled_tokens cfg now b == tokens b.
Proof.
  intros Hl Hc. unfold refilled_tokens.
  assert ((now - last_refill b) * rate == 0) as E by (rewrite Hl; ring).
  rewrite py_min_r; lra.
Qed.

(** A bucket holding [n] whole tokens, refilled at [now], admits [n]
    calls made at [now] and is empty afterwards. *)
Lemma run_burst_admits now key (n : nat) store :
  let b := lookup_bucket cfg now key store in
  last_refill b == now ->
  tokens b == inject_Z (Z.of_nat n) ->
  inject_Z (Z.of_nat n) <= capacity ->
  let store' := fst (run cfg (replicate n (now, key)) store) in
  snd (run cfg (replicate n (now, key)) store) = replicate n (Return true 0) /\
  last_refill (lookup_bucket cfg now key store') == now /\
  tokens (lookup_bucket cfg now key store') == 0.
Proof.
  revert store. induction n as [|n IH]; intros store b Hl Ht Hc store'.
  - subst store'. cbn. repeat split; assumption.
  - subst store'. rewrite replicate_S, run_cons. cbn [fst snd].
    rewrite Nat2Z.inj_succ in Ht, Hc. unfold Z.succ in Ht, Hc.
    rewrite inject_Z_plus in Ht, Hc. change (inject_Z 1) with 1 in Ht, Hc.
    assert (Hn : 0 <= inject_Z (Z.of_nat n)).
    { change 0 with (inject_Z 0). rewrite <- Zle_Qle. lia. }
    pose proof (refilled_tokens_same_instant now b Hl ltac:(lra)) as Hre.
    fold b in Hre.
    rewrite check_rate_limit_admit by (fold b; lra). cbn [fst snd].
    destruct (IH (<[key := Bucket (refilled_tokens cfg now b - 1) now]> store))
      as (Ho & Hl' & Ht'); rewrite ?lookup_bucket_insert; cbn [tokens last_refill].
    + reflexivity.
    + lra.
    + lra.
    + fold b. rewrite Ho. repeat split; assumption.
Qed.

(** The hint computed on an empty bucket. *)
Lemma hint_of_empty_bucket t :
  valid_config cfg -> t == 0 ->
  (py_int ((1 - t) / rate) + 1)%Z = (60 / RATE_LIMIT cfg + 1)%Z.
Proof.
  intros [_ HR] Ht. pose proof (REFILL_RATE_pos cfg HR) as Hr.
  assert (E : (1 - t) / rate == inject_Z 60 / inject_Z (RATE_LIMIT cfg)).
  { rewrite Ht. unfold REFILL_RATE in Hr |- *. field.
    intros H0. rewrite H0 in Hr. unfold Qdiv in Hr. lra. }
  rewrite py_int_floor.
  - now rewrite E, <- Zdiv_Qdiv.
  - rewrite E. apply Qlt_le_weak, Qlt_shift_div_l; [|reflexivity].
    change 0 with (inject_Z 0). now rewrite <- Zlt_Qlt.
Qed.

(** An empty bucket refilled at [now] rejects every call made at [now],
    always with the same hint, and stays empty. *)
Lemma run_burst_rejects now key (m : nat) store :
  valid_config cfg ->
  let b := lookup_bucket cfg now key store in
  last_refill b == now -> tokens b == 0 ->
  snd (run cfg (replicate m (now, key)) store) =
    replicate m (Return false (60 / RATE_LIMIT cfg + 1)).
Proof.
  intros Hcfg. revert store. induction m as [|m IH]; intros store b Hl Ht.
  - reflexivity.
  - pose proof (capacity_ge_1 cfg Hcfg) as Hc.
    pose proof (rate_pos cfg Hcfg) as Hr.
    assert (Hre : refilled_tokens cfg now b == 0).
    { rewrite refilled_tokens_same_instant; [assumption..|lra]. }
    rewrite replicate_S, run_cons. cbn [snd].
    rewrite check_rate_limit_reject; fold b; [|lra..]. cbn [fst snd].
    rewrite hint_of_empty_bucket by assumption. cbn [replicate]. f_equal.
    apply IH; rewrite lookup_bucket_insert; cbn [tokens last_refill];
      [reflexivity | assumption].
Qed.

(** Any number [N >= capacity] of calls on a fresh key at one clock
    instant, one after the other: the first [capacity] are admitted and
    the remaining [N - capacity] are rejected. *)
Lemma same_instant_calls_admit_capacity now key store (N : nat) :
  valid_config cfg ->
  store !! key = None ->
  let C := Z.to_nat (BURST_LIMIT cfg) in
  (C <= N)%nat ->
  snd (run cfg (replicate N (now, key)) store) =
    replicate C (Return true 0)
      ++ replicate (N - C) (Return false (60 / RATE_LIMIT cfg + 1)).
Proof.
  intros Hcfg Hfresh C HN.
  assert (HC : Z.of_nat C = BURST_LIMIT cfg).
  { unfold C. destruct Hcfg. lia. }
  destruct (run_burst_admits now key C store) as (Ho & Hl & Ht).
  { unfold lookup_bucket. rewrite Hfresh. reflexivity. }
  { unfold lookup_bucket. rewrite Hfresh. cbn. now rewrite HC. }
  { rewrite HC. apply Qle_refl. }
  replace N with (C + (N - C))%nat at 1 by lia.
  rewrite replicate_add, run_app. cbn [snd]. rewrite Ho. f_equal.
  now apply run_burst_rejects.
Qed.

(** C1: on a key the store does not hold yet, [capacity] calls made at
    one clock instant are all admitted with [(True, 0)] and the next
    call at that instant is rejected, with a hint [r >= 1]; the hint
    is [60 / RATE_LIMIT + 1] in integer arithmetic, which is 2 for the
    43 per minute of the source. *)
Theorem fresh_bucket_admits_exactly_capacity now key store :
  valid_config cfg ->
  store !! key = None ->
  let C := Z.to_nat (BURST_LIMIT cfg) in
  exists r,
    snd (run cfg (replicate (C + 1) (now, key)) store) =
      replicate C (Return true 0) ++ [Return false r] /\
    (1 <= r)%Z /\ r = (60 / RATE_LIMIT cfg + 1)%Z.
Proof.
  intros Hcfg Hfresh C. exists (60 / RATE_LIMIT cfg + 1)%Z.
  split; [|split; [|reflexivity]].
  - rewrite (same_instant_calls_admit_capacity now key store (C + 1) Hcfg Hfresh)
      by (fold C; lia).
    fold C. replace (C + 1 - C)%nat with 1%nat by lia. reflexivity.
  - destruct Hcfg as [_ HR].
    assert (0 <= 60 / RATE_LIMIT cfg)%Z by (apply Z.div_pos; lia). lia.
Qed.

End Burst.

(** ** Key derivation *)

(** The key with the two concatenations of the f-string unfolded. *)
Lemma get_client_key_eq (ip user_id : string) :
  get_client_key ip user_id = user_id +:+ String "-" ip.
Proof. reflexivity. Qed.

Lemma append_String (c : ascii) (s t : string) :
  String c s +:+ t = String c (s +:+ t).
Proof. reflexivity. Qed.

Lemma has_dash_key (ip user_id : string) :
  has_dash (user_id +:+ String "-" ip) = true.
Proof.
  induction user_id as [|c u IH]; [reflexivity|].
  rewrite append_String. cbn [has_dash]. now destruct (Ascii.eqb c "-").
Qed.

Lemma get_client_key_inj_ip (ip1 u1 ip2 u2 : string) :
  has_dash ip1 = false -> has_dash ip2 = false ->
  get_client_key ip1 u1 = get_client_key ip2 u2 -> u1 = u2 /\ ip1 = ip2.
Proof.
  rewrite !get_client_key_eq. intros H1 H2. revert u2.
  induction u1 as [|c u1 IH]; intros [|c' u2]; rewrite ?append_String;
    change (EmptyString +:+ ?y) with y; intros E.
  - injection E as E. now subst.
  - injection E as _ E'. rewrite E', has_dash_key in H1. discriminate.
  - injection E as _ E'. rewrite <- E', has_dash_key in H2. discriminate.
  - injection E as E E'. destruct (IH u2 E') as [-> ->]. now subst.
Qed.

Lemma get_client_key_inj_user (ip1 u1 ip2 u2 : string) :
  has_dash u1 = false -> has_dash u2 = false ->
  get_client_key ip1 u1 = get_client_key ip2 u2 -> u1 = u2 /\ ip1 = ip2.
Proof.
  rewrite !get_client_key_eq. revert u2.
  induction u1 as [|c u1 IH]; intros [|c' u2]; rewrite ?append_String;
    change (EmptyString +:+ ?y) with y; cbn [has_dash]; intros H1 H2 E.
  - injection E as E. now subst.
  - injection E as E _. subst c'. discriminate.
  - injection E as E _. subst c. discriminate.
  - injection E as E E'. subst c'. destruct (Ascii.eqb c "-"); [discriminate|].
    destruct (IH u2 H1 H2 E') as [-> ->]. now split.
Qed.

(** C6, as the code has it: the key is the user identifier, a dash and
    the client address, one after the other.  It is a function of the
    pair, and it tells pairs apart when no dash occurs in the two
    addresses (as in dotted or colon-separated IP addresses) or none
    occurs in the two user identifiers: then two keys are equal exactly
    when both the identifiers and the addresses are. *)
Theorem get_client_key_injective_without_dash (ip1 u1 ip2 u2 : string) :
  (has_dash ip1 = false /\ has_dash ip2 = false) \/
  (has_dash u1 = false /\ has_dash u2 = false) ->
  (get_client_key ip1 u1 = get_client_key ip2 u2 <-> u1 = u2 /\ ip1 = ip2).
Proof.
  intros H. split.
  - destruct H as [[H1 H2]|[H1 H2]].
    + now apply get_client_key_inj_ip.
    + now apply get_client_key_inj_user.
  - now intros [-> ->].
Qed.

(** * Where the code departs from the specification: concrete runs *)

(** C2 fails on the code.  After one call at clock reading 100 the
    bucket holds 10 tokens stamped 100.  A call at clock reading 40 is
    60 seconds in the past: a clamped elapsed time would leave the 10
    tokens (the specification's refill), the code computes
    [10 + (40 - 100) * 43/60 = -33], and stores that. *)
Lemma backwards_clock_is_not_clamped :
  exists b b',
    store_after_first_call !! demo_key = Some b /\
    tokens b == 10 /\ last_refill b == 100 /\ 40 < last_refill b /\
    spec_refilled_tokens main_config 40 b == tokens b /\
    refilled_tokens main_config 40 b == -33 /\
    ~ refilled_tokens main_config 40 b == tokens b /\
    fst (check_rate_limit main_config 40 demo_key store_after_first_call)
      !! demo_key = Some b' /\
    tokens b' == -33.
Proof.
  do 2 eexists. split; [vm_compute; reflexivity|].
  repeat split; try (vm_compute; reflexivity).
  vm_compute. discriminate.
Qed.

(** C4 fails on the code: with the clock readings 120 and then 0 on one
    key, the second call leaves -76 tokens in the bucket. *)
Lemma tokens_negative_after_backwards_clock :
  (exists b,
     fst (run main_config [(120, demo_key); (0, demo_key)] ∅) !! demo_key = Some b /\
     tokens b == -76 /\ tokens b < 0) /\
  ~ tokens_bounded main_config
      (fst (run main_config [(120, demo_key); (0, demo_key)] ∅)).
Proof.
  assert (H : exists b,
    fst (run main_config [(120, demo_key); (0, demo_key)] ∅) !! demo_key = Some b /\
    tokens b == -76 /\ tokens b < 0).
  { eexists. split; [vm_compute; reflexivity|]. split; vm_compute; reflexivity. }
  split; [exact H|]. intros Hb. destruct H as (b & Hb' & _ & Hneg).
  destruct (Hb _ _ Hb') as [Hpos _]. lra.
Qed.


(** C6 fails on the code: the user "u1-x" at address "1.2.3.4" and the
    user "u1" at address "x-1.2.3.4" get the same key. *)
Lemma get_client_key_collision :
  get_client_key "1.2.3.4" "u1-x" = get_client_key "x-1.2.3.4" "u1" /\
  ~ ("u1-x"%string = "u1"%string /\ "1.2.3.4"%string = "x-1.2.3.4"%string).
Proof. split; [reflexivity|]. intros [H _]. discriminate. Qed.

(** C5 fails on the code, in double arithmetic.  Calls at the clock
    readings 2870.1627906976746, the next double, and then 0 (a clock
    that went back) leave the bucket 2047.95 tokens in debt, and the
    third call returns (False, 2859).  The call at clock reading
    0 + 2859, exactly 2859 seconds later, is rejected again with
    (False, 1): the refill [2859 * REFILL_RATE] and the sum are rounded,
    and the count ends just below 1. *)
Lemma retry_after_wait_rejected_in_debt :
  snd (Binary64.run [(0x1.66c53594d6536p+11%float, demo_key);
                     (0x1.66c53594d6537p+11%float, demo_key);
                     (0%float, demo_key)] ∅)
    = [Return true 0; Return true 0; Return false 2859] /\
  Binary64.stored demo_key
    (fst (Binary64.run [(0x1.66c53594d6536p+11%float, demo_key);
                        (0x1.66c53594d6537p+11%float, demo_key);
                        (0%float, demo_key)] ∅))
    = Some ((-0x1.fffcccccccccdp+10)%float, 0%float) /\
  (0 + 2859 = 2859)%float /\
  snd (Binary64.check_rate_limit 2859%float demo_key
         (fst (Binary64.run [(0x1.66c53594d6536p+11%float, demo_key);
                             (0x1.66c53594d6537p+11%float, demo_key);
                             (0%float, demo_key)] ∅)))
    = Return false 1.
Proof. repeat split; vm_compute; reflexivity. Qed.

(** * The theorems at concrete inputs *)

Lemma main_config_valid : valid_config main_config.
Proof. split; cbn; lia. Defined.

Lemma fresh_bucket_admits_exactly_capacity_witness :
  valid_config main_config /\
  (∅ : rate_limit_store) !! demo_key = None /\
  exists r,
    snd (run main_config (replicate (11 + 1) (0, demo_key)) ∅) =
      replicate 11 (Return true 0) ++ [Return false r] /\
    (1 <= r)%Z /\ r = (60 / 43 + 1)%Z.
Proof.
  split; [exact main_config_valid|]. split; [reflexivity|].
  exact (fresh_bucket_admits_exactly_capacity main_config 0 demo_key ∅
           main_config_valid eq_refl).
Defined.

Lemma backwards_clock_never_raises_tokens_witness :
  valid_config main_config /\
  store_after_first_call !! demo_key = Some (Bucket 10 100) /\
  40 < last_refill (Bucket 10 100) /\
  refilled_tokens main_config 40 (Bucket 10 100) <= tokens (Bucket 10 100) /\
  exists b',
    fst (check_rate_limit main_config 40 demo_key store_after_first_call)
      !! demo_key = Some b' /\
    tokens b' <= tokens (Bucket 10 100).
Proof.
  assert (H1 : store_after_first_call !! demo_key = Some (Bucket 10 100))
    by (vm_compute; reflexivity).
  assert (H2 : 40 < last_refill (Bucket 10 100)) by (vm_compute; reflexivity).
  split; [exact main_config_valid|]. split; [exact H1|]. split; [exact H2|].
  exact (backwards_clock_never_raises_tokens main_config 40 demo_key
           store_after_first_call (Bucket 10 100) main_config_valid H1 H2).
Defined.

(** A rejected call, used by the next three lemmas: one second after
    the burst the bucket holds 43/60 tokens and the hint is 1. *)
Lemma rejected_one_second_after_burst :
  check_rate_limit main_config 1 demo_key store_after_burst =
    (fst (check_rate_limit main_config 1 demo_key store_after_burst),
     Return false 1).
Proof. apply injective_projections; [reflexivity | vm_compute; reflexivity]. Defined.


Lemma store_after_rejection_bucket :
  fst (check_rate_limit main_config 1 demo_key store_after_burst) !! demo_key
  = Some (lookup_bucket main_config 0 demo_key
            (fst (check_rate_limit main_config 1 demo_key store_after_burst))).
Proof. vm_compute. reflexivity. Defined.

Lemma retry_after_wait_admits_when_not_in_debt_witness :
  valid_config main_config /\
  check_rate_limit main_config 1 demo_key store_after_burst =
    (fst (check_rate_limit main_config 1 demo_key store_after_burst),
     Return false 1) /\
  fst (check_rate_limit main_config 1 demo_key store_after_burst) !! demo_key
    = Some (lookup_bucket main_config 0 demo_key
              (fst (check_rate_limit main_config 1 demo_key store_after_burst))) /\
  0 <= tokens (lookup_bucket main_config 0 demo_key
                 (fst (check_rate_limit main_config 1 demo_key
                         store_after_burst))) /\
  inject_Z 1 <= 2 - 1 /\
  snd (check_rate_limit main_config 2 demo_key
         (fst (check_rate_limit main_config 1 demo_key store_after_burst)))
    = Return true 0.
Proof.
  assert (H1 : 0 <= tokens (lookup_bucket main_config 0 demo_key
                              (fst (check_rate_limit main_config 1 demo_key
                                      store_after_burst))))
    by (vm_compute; discriminate).
  assert (H2 : inject_Z 1 <= 2 - 1) by (vm_compute; discriminate).
  split; [exact main_config_valid|].
  split; [exact rejected_one_second_after_burst|].
  split; [exact store_after_rejection_bucket|].
  split; [exact H1|]. split; [exact H2|].
  exact (retry_after_wait_admits_when_not_in_debt main_config 1 2 demo_key
           store_after_burst _ 1%Z _ _ main_config_valid
           rejected_one_second_after_burst store_after_rejection_bucket H1
           store_after_rejection_bucket H2).
Defined.

Lemma rejection_subtracts_nothing_witness :
  valid_config main_config /\
  check_rate_limit main_config 1 demo_key store_after_burst =
    (fst (check_rate_limit main_config 1 demo_key store_after_burst),
     Return false 1) /\
  let b := lookup_bucket main_config 1 demo_key store_after_burst in
  exists b',
    fst (check_rate_limit main_config 1 demo_key store_after_burst)
      !! demo_key = Some b' /\
    tokens b' = py_min (inject_Z (BURST_LIMIT main_config))
                  (tokens b + (1 - last_refill b) * REFILL_RATE main_config) /\
    (last_refill b <= 1 -> tokens b <= tokens b').
Proof.
  split; [exact main_config_valid|].
  split; [exact rejected_one_second_after_burst|].
  exact (rejection_subtracts_nothing main_config 1 demo_key store_after_burst
           _ 1%Z main_config_valid rejected_one_second_after_burst).
Defined.

Lemma tokens_bounded_on_monotone_clock_witness :
  valid_config main_config /\
  clock_monotone [(0, demo_key); (0, demo_key); (2, demo_key)] /\
  (forall key b,
     fst (run main_config
            (take 3 [(0, demo_key); (0, demo_key); (2, demo_key)]) ∅)
       !! key = Some b ->
     tokens b <= inject_Z (BURST_LIMIT main_config)) /\
  tokens_bounded main_config
    (fst (run main_config
            (take 3 [(0, demo_key); (0, demo_key); (2, demo_key)]) ∅)).
Proof.
  assert (Hm : clock_monotone [(0, demo_key); (0, demo_key); (2, demo_key)]).
  { unfold clock_monotone. cbn. repeat constructor; unfold Qle; cbn; lia. }
  split; [exact main_config_valid|]. split; [exact Hm|].
  destruct (tokens_bounded_on_monotone_clock main_config
              [(0, demo_key); (0, demo_key); (2, demo_key)] 3
              main_config_valid) as [Hu Hb].
  split; [exact Hu | exact (Hb Hm)].
Defined.

Lemma get_client_key_injective_without_dash_witness :
  ((has_dash "1.2.3.4" = false /\ has_dash "5.6.7.8" = false) \/
   (has_dash "u1-x" = false /\ has_dash "u1-x" = false)) /\
  (get_client_key "1.2.3.4" "u1-x" = get_client_key "5.6.7.8" "u1-x" <->
   "u1-x"%string = "u1-x"%string /\ "1.2.3.4"%string = "5.6.7.8"%string).
Proof.
  assert (H : (has_dash "1.2.3.4" = false /\ has_dash "5.6.7.8" = false) \/
              (has_dash "u1-x" = false /\ has_dash "u1-x" = false))
    by (left; split; reflexivity).
  split; [exact H|].
  exact (get_client_key_injective_without_dash "1.2.3.4" "u1-x" "5.6.7.8" "u1-x" H).
Defined.

Lemma other_keys_untouched_witness :
  "u2-5.6.7.8"%string <> demo_key /\
  fst (check_rate_limit main_config 3 demo_key
         (fst (check_rate_limit main_config 0 "u2-5.6.7.8" ∅)))
    !! "u2-5.6.7.8"%string
  = fst (check_rate_limit main_config 0 "u2-5.6.7.8" ∅) !! "u2-5.6.7.8"%string /\
  dom (fst (check_rate_limit main_config 0 "u2-5.6.7.8" ∅)) ⊆
  dom (fst (check_rate_limit main_config 3 demo_key
              (fst (check_rate_limit main_config 0 "u2-5.6.7.8" ∅)))).
Proof.
  assert (H : "u2-5.6.7.8"%string <> demo_key) by (vm_compute; discriminate).
  split; [exact H|].
  exact (other_keys_untouched main_config 3 demo_key "u2-5.6.7.8"
           (fst (check_rate_limit main_config 0 "u2-5.6.7.8" ∅)) H).
Defined.

(** * The same runs in double arithmetic

    The executions above, replayed with every number an IEEE-754
    double: the outcomes and the stored counts are the same. *)

(** The example scenario of the specification at a present-day clock
    reading: eleven admissions, a rejection with hint 2, and an
    admission two seconds later. *)
Lemma binary64_example_scenario :
  snd (Binary64.run (replicate 12 (1700000000%float, demo_key)
                       ++ [(1700000002%float, demo_key)]) ∅)
  = replicate 11 (Return true 0) ++ [Return false 2; Return true 0].
Proof. vm_compute. reflexivity. Qed.

(** Clock readings 100 then 40: the bucket ends with -33 tokens. *)
Lemma binary64_backwards_clock :
  snd (Binary64.run [(100%float, demo_key); (40%float, demo_key)] ∅)
    = [Return true 0; Return false 48] /\
  Binary64.stored demo_key
    (fst (Binary64.run [(100%float, demo_key); (40%float, demo_key)] ∅))
    = Some ((-33)%float, 40%float).
Proof. split; vm_compute; reflexivity. Qed.

(** The burst at clock reading 0, then a call at the double nearest to
    17/43: the wait is the double 1.0 exactly and the hint is 2. *)
Lemma binary64_whole_second_wait :
  snd (Binary64.run (replicate 11 (0%float, demo_key)
                       ++ [(0x1.94d653594d653p-2%float, demo_key)]) ∅)
    = replicate 11 (Return true 0) ++ [Return false 2] /\
  Binary64.stored demo_key
    (fst (Binary64.run (replicate 11 (0%float, demo_key)
                          ++ [(0x1.94d653594d653p-2%float, demo_key)]) ∅))
    = Some (0x1.2222222222222p-2%float, 0x1.94d653594d653p-2%float) /\
  ((1 - 0x1.2222222222222p-2) / Binary64.REFILL_RATE)%float = 1%float.
Proof. repeat split; vm_compute; reflexivity. Qed.

(** A clock reading earlier than [last_refill] by less than the
    rounding can see: the burst of ten calls at 1, then 0.5, then
    2^-60, then 0.  The last call finds the count it leaves: a
    backwards clock does not always lower the count. *)
Lemma binary64_backwards_clock_absorbed :
  Binary64.stored demo_key
    (fst (Binary64.run (replicate 10 (1%float, demo_key)
                          ++ [(0.5%float, demo_key); (0x1p-60%float, demo_key)])
            ∅))
    = Some (0x1.2222222222221p-2%float, 0x1p-60%float) /\
  Binary64.stored demo_key
    (fst (Binary64.run (replicate 10 (1%float, demo_key)
                          ++ [(0.5%float, demo_key); (0x1p-60%float, demo_key);
                              (0%float, demo_key)]) ∅))
    = Some (0x1.2222222222221p-2%float, 0%float).
Proof. split; vm_compute; reflexivity. Qed.

(** On a clock that never goes back, a reading computed as the double
    sum [now + 1] can be less than one second after [now]: after the
    burst at 0x1.c6dd39a3f5b92p+1 and a rejection with hint 1 at
    [now = 0x1.f978040f1f65dp+1], the elapsed time of the call at the
    double [now + 1] is below 1 and the call is rejected. *)
Lemma binary64_clock_sum_falls_short :
  snd (Binary64.run (replicate 11 (0x1.c6dd39a3f5b92p+1%float, demo_key)
                       ++ [(0x1.f978040f1f65dp+1%float, demo_key);
                           ((0x1.f978040f1f65dp+1 + 1)%float, demo_key)]) ∅)
    = replicate 11 (Return true 0) ++ [Return false 1; Return false 1] /\
  ((0x1.f978040f1f65dp+1 + 1 - 0x1.f978040f1f65dp+1 <? 1)%float = true).
Proof. split; vm_compute; reflexivity. Qed.

(** The two counts at which the hint changes, in double arithmetic: a
    bucket left with [1 - REFILL_RATE] tokens is rejected with hint 2
    and admitted two seconds later; one left with the next double is
    rejected with hint 1 and admitted one second later. *)
Lemma binary64_retry_at_the_hint_boundary :
  snd (Binary64.run [(5%float, demo_key); (7%float, demo_key)]
         {[ demo_key := Binary64.Bucket 0x1.2222222222222p-2%float 5%float ]})
    = [Return false 2; Return true 0] /\
  snd (Binary64.run [(5%float, demo_key); (6%float, demo_key)]
         {[ demo_key := Binary64.Bucket 0x1.2222222222223p-2%float 5%float ]})
    = [Return false 1; Return true 0].
Proof. split; vm_compute; reflexivity. Qed.

(** ** The burst at any finite clock reading, in double arithmetic *)

(** A finite double minus itself is [+0]. *)
Lemma binary64_sub_diag (x : float) :
  is_finite x = true -> (x - x)%float = 0%float.
Proof.
  intros Hfin. apply Prim2SF_inj. rewrite sub_spec.
  unfold is_finite, is_nan, is_infinity in Hfin.
  rewrite !FloatAxioms.eqb_spec, abs_spec in Hfin.
  destruct (Prim2SF x) as [s|s| |s m e].
  - now destruct s.
  - destruct s; vm_compute in Hfin; discriminate Hfin.
  - vm_compute in Hfin. discriminate Hfin.
  - unfold SF64sub, SFsub. cbv zeta. rewrite Z.sub_diag. reflexivity.
Qed.

Lemma binary64_run_cons now key rest store :
  Binary64.run ((now, key) :: rest) store =
    (fst (Binary64.run rest (fst (Binary64.check_rate_limit now key store))),
     snd (Binary64.check_rate_limit now key store)
       :: snd (Binary64.run rest (fst (Binary64.check_rate_limit now key store)))).
Proof.
  cbn [Binary64.run].
  destruct (Binary64.check_rate_limit now key store) as [s1 o1].
  cbn [fst snd]. now destruct (Binary64.run rest s1).
Qed.

(** One call at the instant the bucket was stamped, on a bucket whose
    token count [t] is known: what is left to compute is closed. *)
Lemma binary64_call_same_instant now key store t :
  is_finite now = true ->
  match store !! key with
  | Some b => b = Binary64.Bucket t now
  | None => t = Binary64.BURST_LIMIT
  end ->
  Binary64.check_rate_limit now key store =
    let t' := Binary64.py_min Binary64.BURST_LIMIT
                (t + 0 * Binary64.REFILL_RATE)%float in
    if (1 <=? t')%float then
      (<[key := Binary64.Bucket (t' - 1)%float now]> store, Return true 0)
    else
      match Binary64.py_int ((1 - t') / Binary64.REFILL_RATE)%float with
      | inl e => (<[key := Binary64.Bucket t' now]> store, Raise e)
      | inr n => (<[key := Binary64.Bucket t' now]> store, Return false (n + 1))
      end.
Proof.
  intros Hfin Hb. unfold Binary64.check_rate_limit.
  destruct (store !! key) as [b|]; subst; cbn [Binary64.tokens Binary64.last_refill];
    rewrite (binary64_sub_diag now Hfin); reflexivity.
Qed.

Lemma binary64_admit_same_instant now key store t t1 :
  is_finite now = true ->
  match store !! key with
  | Some b => b = Binary64.Bucket t now
  | None => t = Binary64.BURST_LIMIT
  end ->
  (1 <=? Binary64.py_min Binary64.BURST_LIMIT
           (t + 0 * Binary64.REFILL_RATE))%float = true ->
  (Binary64.py_min Binary64.BURST_LIMIT
     (t + 0 * Binary64.REFILL_RATE) - 1)%float = t1 ->
  Binary64.check_rate_limit now key store =
    (<[key := Binary64.Bucket t1 now]> store, Return true 0).
Proof.
  intros Hfin Hb H1 H2.
  rewrite (binary64_call_same_instant now key store t Hfin Hb).
  cbv zeta. now rewrite H1, H2.
Qed.

(** The outcomes of [left + 1] calls at the same instant, by the number
    of whole tokens left in the bucket. *)
Lemma binary64_burst_from (left : nat) now key store :
  is_finite now = true ->
  (left <= 11)%nat ->
  match store !! key with
  | Some b => b = Binary64.Bucket (of_uint63 (Uint63.of_nat left)) now
  | None => left = 11%nat
  end ->
  snd (Binary64.run (replicate (left + 1) (now, key)) store) =
    replicate left (Return true 0) ++ [Return false 2].
Proof.
  intros Hfin. revert store. induction left as [|n IH]; intros store Hle Hb.
  - cbn [replicate Nat.add app]. rewrite binary64_run_cons. cbn [snd Binary64.run].
    rewrite (binary64_call_same_instant now key store 0%float Hfin).
    + vm_compute. reflexivity.
    + destruct (store !! key); [exact Hb | discriminate Hb].
  - cbn [replicate Nat.add app]. rewrite binary64_run_cons.
    assert (Hcall : Binary64.check_rate_limit now key store =
              (<[key := Binary64.Bucket (of_uint63 (Uint63.of_nat n)) now]> store,
               Return true 0)).
    { apply (binary64_admit_same_instant now key store
               (of_uint63 (Uint63.of_nat (S n))) _ Hfin).
      - destruct (store !! key); [exact Hb|].
        injection Hb as ->. vm_compute. reflexivity.
      - do 11 (destruct n as [|n]; [vm_compute; reflexivity|]). lia.
      - do 11 (destruct n as [|n]; [vm_compute; reflexivity|]). lia. }
    rewrite Hcall. cbn [fst snd]. f_equal.
    apply IH; [lia|]. now rewrite lookup_insert_eq.
Qed.

(** X18: the example scenario in double arithmetic, for every finite clock
    reading and every store that does not hold the key yet: eleven
    calls at that reading are admitted and the twelfth is rejected with
    hint 2. *)
Lemma binary64_fresh_bucket_burst now key store :
  is_finite now = true ->
  store !! key = None ->
  snd (Binary64.run (replicate 12 (now, key)) store) =
    replicate 11 (Return true 0) ++ [Return false 2].
Proof.
  intros Hfin Hfresh.
  apply (binary64_burst_from 11 now key store Hfin); [lia|].
  now rewrite Hfresh.
Qed.

(** * Further properties of [check_rate_limit] *)

Section Limiter_more.
Context (cfg : config).
Implicit Types (now : Q) (key : string) (store : rate_limit_store).

Local Abbreviation capacity := (inject_Z (BURST_LIMIT cfg)).
Local Abbreviation rate := (REFILL_RATE cfg).
Local Abbreviation post_refill now key store :=
  (refilled_tokens cfg now (lookup_bucket cfg now key store)).

(** With a valid configuration a call either admits or rejects. *)
Lemma check_rate_limit_cases now key store :
  valid_config cfg ->
  (1 <= post_refill now key store /\
   check_rate_limit cfg now key store =
     (<[key := Bucket (post_refill now key store - 1) now]> store,
      Return true 0)) \/
  (post_refill now key store < 1 /\
   check_rate_limit cfg now key store =
     (<[key := Bucket (post_refill now key store) now]> store,
      Return false (py_int ((1 - post_refill now key store) / rate) + 1))).
Proof.
  intros Hcfg. pose proof (rate_pos cfg Hcfg) as Hr.
  destruct (Qlt_le_dec (post_refill now key store) 1) as [Hlt|Hge].
  - right. split; [assumption|]. apply check_rate_limit_reject; [assumption|lra].
  - left. split; [assumption|]. now apply check_rate_limit_admit.
Qed.

(** Reading a returned admission backwards. *)
Lemma check_rate_limit_admitted now key store store' r :
  check_rate_limit cfg now key store = (store', Return true r) ->
  1 <= post_refill now key store /\ r = 0%Z /\
  store' = <[key := Bucket (post_refill now key store - 1) now]> store.
Proof.
  unfold check_rate_limit, py_truediv. cbn [tokens last_refill].
  destruct (Qle_bool 1 _) eqn:E.
  - intros [= <- <-]. apply Qle_bool_iff in E. now repeat split.
  - destruct (Qeq_bool rate 0); discriminate.
Qed.

(** X2: an admitted call takes exactly one token from the refilled bucket:
    it returns [(True, 0)] and stores
    [min(capacity, tokens + elapsed * rate) - 1], a count between 0 and
    [capacity - 1].  [b] is the bucket the call works on. *)
Theorem admission_takes_one_token now key store store' r :
  check_rate_limit cfg now key store = (store', Return true r) ->
  let b := lookup_bucket cfg now key store in
  r = 0%Z /\
  exists b', store' !! key = Some b' /\
    tokens b' = py_min capacity (tokens b + (now - last_refill b) * rate) - 1 /\
    0 <= tokens b' <= capacity - 1.
Proof.
  intros Hcall b. apply check_rate_limit_admitted in Hcall as (Hge & -> & ->).
  split; [reflexivity|]. eexists. split; [apply lookup_insert_eq|].
  cbn [tokens]. split; [reflexivity|].
  fold b in Hge |- *. unfold refilled_tokens in Hge |- *.
  pose proof (py_min_le_l capacity (tokens b + (now - last_refill b) * rate)).
  lra.
Qed.

(** The refill step gives at least what the elapsed time is worth, up
    to the capacity, when the bucket was not in debt and the clock did
    not go back. *)
Lemma refilled_tokens_lower now b :
  valid_config cfg ->
  0 <= tokens b -> last_refill b <= now ->
  py_min capacity ((now - last_refill b) * rate) <= refilled_tokens cfg now b.
Proof.
  intros Hcfg Ht Hl. pose proof (rate_pos cfg Hcfg) as Hr.
  unfold refilled_tokens.
  pose proof (py_min_le_l capacity ((now - last_refill b) * rate)).
  pose proof (py_min_le_r capacity ((now - last_refill b) * rate)).
  apply py_min_glb; lra.
Qed.

(** X3: a call made at least [1 / rate] seconds (60 / RATE_LIMIT) after the
    bucket was last refilled is admitted, whatever the bucket held, as
    long as it was not in debt. *)
Theorem spaced_call_is_admitted now key store b :
  valid_config cfg ->
  store !! key = Some b ->
  0 <= tokens b ->
  last_refill b + 1 / rate <= now ->
  snd (check_rate_limit cfg now key store) = Return true 0.
Proof.
  intros Hcfg Hb Ht Hsp.
  pose proof (rate_pos cfg Hcfg) as Hr. pose proof (capacity_ge_1 cfg Hcfg) as Hc.
  assert (Hinv : 0 < 1 / rate) by (apply Qlt_shift_div_l; lra).
  assert (Hone : 1 <= (now - last_refill b) * rate).
  { assert (E : 1 == 1 / rate * rate) by (field; lra).
    rewrite E at 1. apply Qmult_le_compat_r; lra. }
  rewrite check_rate_limit_admit; [reflexivity|].
  unfold lookup_bucket. rewrite Hb.
  pose proof (refilled_tokens_lower now b Hcfg Ht ltac:(lra)) as Hlow.
  assert (1 <= py_min capacity ((now - last_refill b) * rate))
    by (apply py_min_glb; assumption).
  lra.
Qed.

(** X4: after [capacity / rate] seconds without a call the bucket is full
    again: the next call is admitted and leaves [capacity - 1] tokens. *)
Theorem idle_bucket_is_full_again now key store b :
  valid_config cfg ->
  store !! key = Some b ->
  0 <= tokens b ->
  last_refill b + capacity / rate <= now ->
  snd (check_rate_limit cfg now key store) = Return true 0 /\
  exists b', fst (check_rate_limit cfg now key store) !! key = Some b' /\
             tokens b' == capacity - 1.
Proof.
  intros Hcfg Hb Ht Hidle.
  pose proof (rate_pos cfg Hcfg) as Hr. pose proof (capacity_ge_1 cfg Hcfg) as Hc.
  assert (Hinv : 0 < capacity / rate) by (apply Qlt_shift_div_l; lra).
  assert (Hfull : capacity <= (now - last_refill b) * rate).
  { assert (E : capacity == capacity / rate * rate) by (field; lra).
    rewrite E at 1. apply Qmult_le_compat_r; lra. }
  assert (Hl : lookup_bucket cfg now key store = b)
    by (unfold lookup_bucket; now rewrite Hb).
  pose proof (refilled_tokens_lower now b Hcfg Ht ltac:(lra)) as Hlow.
  assert (Hre : refilled_tokens cfg now b == capacity).
  { apply Qle_antisym; [apply py_min_le_l|].
    assert (capacity <= py_min capacity ((now - last_refill b) * rate))
      by (apply py_min_glb; lra).
    lra. }
  rewrite check_rate_limit_admit by (rewrite Hl; lra). cbn [fst snd].
  split; [reflexivity|]. eexists. split; [apply lookup_insert_eq|].
  cbn [tokens]. rewrite Hl, Hre. reflexivity.
Qed.

End Limiter_more.

(** * Further properties of sequences of calls *)

Section Runs_more.
Context (cfg : config).
Implicit Types (now : Q) (key : string) (store : rate_limit_store).

Local Abbreviation capacity := (inject_Z (BURST_LIMIT cfg)).
Local Abbreviation rate := (REFILL_RATE cfg).
Local Abbreviation post_refill now key store :=
  (refilled_tokens cfg now (lookup_bucket cfg now key store)).

(** The refilled count is within the bounds when the store is and the
    clock has not gone back. *)
Lemma post_refill_bounded t now key store :
  valid_config cfg -> t <= now ->
  tokens_bounded cfg store -> refilled_by t store ->
  0 <= post_refill now key store <= capacity.
Proof.
  intros Hcfg Htn Hb Hs.
  pose proof (capacity_ge_1 cfg Hcfg) as Hc. pose proof (rate_pos cfg Hcfg) as Hr.
  set (b0 := lookup_bucket cfg now key store).
  assert (H0 : 0 <= tokens b0 <= capacity /\ last_refill b0 <= now).
  { unfold b0, lookup_bucket. destruct (store !! key) as [b|] eqn:E.
    - split; [now apply (Hb key)|]. specialize (Hs key b E). lra.
    - cbn. lra. }
  destruct H0 as [H0 H1]. unfold refilled_tokens. split; [|apply py_min_le_l].
  assert (0 <= (now - last_refill b0) * rate) by (apply Qmult_le_0_compat; lra).
  apply py_min_glb; lra.
Qed.

(** One call on a store within the bounds, at a clock reading that is
    not in its past: an admission, or a rejection whose hint is between
    1 and [60 / RATE_LIMIT + 1]. *)
Lemma check_rate_limit_hint_bounded t now key store :
  valid_config cfg -> t <= now ->
  tokens_bounded cfg store -> refilled_by t store ->
  snd (check_rate_limit cfg now key store) = Return true 0 \/
  exists r, snd (check_rate_limit cfg now key store) = Return false r /\
            (1 <= r <= 60 / RATE_LIMIT cfg + 1)%Z.
Proof.
  intros Hcfg Htn Hb Hs. pose proof (rate_pos cfg Hcfg) as Hr.
  destruct (post_refill_bounded t now key store Hcfg Htn Hb Hs) as [H0 _].
  destruct (check_rate_limit_cases cfg now key store Hcfg) as [[_ E]|[Hlt E]];
    rewrite E; cbn [snd]; [now left|right].
  eexists. split; [reflexivity|].
  set (wait := (1 - post_refill now key store) / rate).
  assert (Hw : 0 < wait) by (apply Qlt_shift_div_l; lra).
  assert (Hu : wait <= inject_Z 60 / inject_Z (RATE_LIMIT cfg)).
  { unfold wait, REFILL_RATE in *. apply Qle_shift_div_r; [assumption|].
    assert (E' : inject_Z 60 / inject_Z (RATE_LIMIT cfg)
                 * (inject_Z (RATE_LIMIT cfg) / 60) == 1).
    { field. intros H. rewrite H in Hr. unfold Qdiv in Hr. lra. }
    rewrite E'. lra. }
  rewrite py_int_floor by lra.
  assert (Qfloor 0 <= Qfloor wait)%Z by (apply Qfloor_resp_le; lra).
  assert (Qfloor wait <= Qfloor (inject_Z 60 / inject_Z (RATE_LIMIT cfg)))%Z
    by (apply Qfloor_resp_le; assumption).
  rewrite <- Zdiv_Qdiv in *. change (Qfloor 0) with 0%Z in *. lia.
Qed.

(** X6: along calls whose clock readings never go back, starting from the
    empty store, no call raises, every admission returns [(True, 0)]
    and every rejection carries a hint between 1 and
    [60 / RATE_LIMIT + 1] seconds (1 or 2 for the 43 per minute of the
    source). *)
Theorem retry_hints_are_bounded (calls : list (Q * string)) :
  valid_config cfg ->
  clock_monotone calls ->
  Forall (fun out =>
            out = Return true 0 \/
            exists r, out = Return false r /\
                      (1 <= r <= 60 / RATE_LIMIT cfg + 1)%Z)
         (snd (run cfg calls ∅)).
Proof.
  intros Hcfg Hmono.
  assert (Hgen : forall calls t store,
    Sorted Qle (t :: calls.*1) ->
    tokens_bounded cfg store -> refilled_by t store ->
    Forall (fun out =>
              out = Return true 0 \/
              exists r, out = Return false r /\
                        (1 <= r <= 60 / RATE_LIMIT cfg + 1)%Z)
           (snd (run cfg calls store))).
  { clear calls Hmono.
    induction calls as [|[now k] rest IH]; intros t store Hsort Hb Hs.
    - constructor.
    - rewrite run_cons. cbn [snd]. cbn in Hsort.
      apply Sorted_inv in Hsort as [Hsort Hhd]. apply HdRel_inv in Hhd.
      destruct (check_rate_limit_bounded cfg t now k store Hcfg Hhd Hb Hs).
      constructor.
      + exact (check_rate_limit_hint_bounded t now k store Hcfg Hhd Hb Hs).
      + now apply (IH now). }
  destruct calls as [|[now k] rest].
  - constructor.
  - apply (Hgen _ now).
    + unfold clock_monotone in Hmono. cbn in Hmono |- *.
      constructor; [assumption|]. constructor. apply Qle_refl.
    + intros key b. now rewrite lookup_empty.
    + intros key b. now rewrite lookup_empty.
Qed.

(** X7: the store grows by exactly the keys it is called with: after a
    sequence of calls its keys are the keys it had and the keys of the
    calls; nothing is ever evicted. *)
Theorem run_keys (calls : list (Q * string)) store :
  dom (fst (run cfg calls store)) = dom store ∪ list_to_set (calls.*2).
Proof.
  revert store. induction calls as [|[now k] rest IH]; intros store.
  - cbn. set_solver.
  - rewrite run_cons. cbn [fst]. rewrite IH.
    destruct (check_rate_limit_store cfg now k store) as [t ->].
    rewrite dom_insert_L. cbn. set_solver.
Qed.

End Runs_more.

(** * Further properties of [get_client_key] *)

Lemma append_length (s t : string) :
  String.length (s +:+ t) = (String.length s + String.length t)%nat.
Proof.
  induction s as [|c s IH]; [reflexivity|].
  rewrite append_String. cbn [String.length]. now rewrite IH.
Qed.

Lemma append_cancel_r (t s1 s2 : string) : s1 +:+ t = s2 +:+ t -> s1 = s2.
Proof.
  revert s2. induction s1 as [|c s1 IH]; intros [|c' s2] E.
  - reflexivity.
  - apply (f_equal String.length) in E. rewrite !append_length in E.
    cbn [String.length] in E. lia.
  - apply (f_equal String.length) in E. rewrite !append_length in E.
    cbn [String.length] in E. lia.
  - rewrite !append_String in E. injection E as -> E. f_equal. now apply IH.
Qed.

(** X8: two requests that get the same key differ in both components or in
    none: with the same user identifier the addresses are the same, and
    with the same address the user identifiers are the same.  So one
    user never shares a bucket across two addresses, and two users never
    share one behind the same address. *)
Theorem get_client_key_shared_component (ip1 u1 ip2 u2 : string) :
  get_client_key ip1 u1 = get_client_key ip2 u2 ->
  (u1 = u2 <-> ip1 = ip2).
Proof.
  rewrite !get_client_key_eq. intros E. split; intros ->.
  - apply String.app_inj in E. now injection E.
  - now apply append_cancel_r in E.
Qed.

(** * Properties of [validate_security] *)

Lemma validation_fails data :
  well_formed data = false ->
  negb (truthy (userId data)) || negb (truthy (input data))
    || negb (truthy (category data)) = true.
Proof.
  unfold well_formed.
  now destruct (truthy (userId data)), (truthy (input data)),
    (truthy (category data)).
Qed.

Lemma validation_passes data :
  well_formed data = true ->
  negb (truthy (userId data)) || negb (truthy (input data))
    || negb (truthy (category data)) = false.
Proof.
  unfold well_formed.
  now destruct (truthy (userId data)), (truthy (input data)),
    (truthy (category data)).
Qed.

Section Endpoint_facts.
Context (cfg : config).
Implicit Types (now : Q) (ip key : string) (client : option string)
  (data : SecurityRequest) (store : rate_limit_store) (log : list pydict).

Local Abbreviation rate := (REFILL_RATE cfg).

(** What a call returns depends on the store through the bucket of its
    key only. *)
Lemma check_rate_limit_outcome_agree now key store1 store2 :
  store1 !! key = store2 !! key ->
  snd (check_rate_limit cfg now key store1) =
  snd (check_rate_limit cfg now key store2).
Proof.
  intros H. unfold check_rate_limit.
  rewrite (lookup_bucket_agree cfg now key store1 store2 H).
  cbn [tokens last_refill]. destruct (Qle_bool 1 _); [reflexivity|].
  destruct (py_truediv _ _); reflexivity.
Qed.

(** X9: a body with an empty [userId], [input] or [category] is answered
    with 400 before the peer is looked at and before the rate limiter is
    consulted: the store and the log are left as they were, so malformed
    requests cost no token. *)
Theorem malformed_request_is_refused now client data store log :
  well_formed data = false ->
  fst (validate_security cfg now client data (store, log)) = (store, log) /\
  status_code (snd (validate_security cfg now client data (store, log)))
    = 400%Z /\
  dict_get "blocked"
    (content (snd (validate_security cfg now client data (store, log))))
    = Some (PyBool true).
Proof.
  intros Hwf. unfold validate_security. rewrite (validation_fails data Hwf).
  repeat split.
Qed.

(** X10: what decides the status.  With a valid configuration, on a
    store whose counts are within the bounds and whose stamps are not
    later than the clock reading (every store reached on a clock that
    never went back): the status is 400 exactly for a malformed body;
    500 exactly for a well-formed body of a request without a peer,
    where [request.client.host] raises; 200 exactly when the body is
    well formed and the rate limiter admits the key of the request; and
    429 exactly when it rejects it. *)
Theorem response_status now client data store log :
  valid_config cfg ->
  tokens_bounded cfg store ->
  refilled_by now store ->
  let resp := snd (validate_security cfg now client data (store, log)) in
  (status_code resp = 400%Z /\ well_formed data = false) \/
  (status_code resp = 500%Z /\ well_formed data = true /\ client = None) \/
  (exists ip, client = Some ip /\ well_formed data = true /\
     status_code resp = 200%Z /\
     snd (check_rate_limit cfg now (get_client_key ip (userId data)) store)
       = Return true 0) \/
  (exists ip r, client = Some ip /\ well_formed data = true /\
     status_code resp = 429%Z /\
     snd (check_rate_limit cfg now (get_client_key ip (userId data)) store)
       = Return false r).
Proof.
  intros Hcfg _ _ resp. subst resp. unfold validate_security.
  destruct (well_formed data) eqn:Hwf.
  - rewrite (validation_passes data Hwf). destruct client as [ip|].
    + destruct (check_rate_limit_cases cfg now (get_client_key ip (userId data))
                  store Hcfg) as [[_ E]|[_ E]]; rewrite E; cbn.
      * right. right. left. exists ip. rewrite E. now repeat split.
      * right. right. right. eexists ip, _. rewrite E. now repeat split.
    + right. left. now repeat split.
  - rewrite (validation_fails data Hwf). left. now repeat split.
Qed.

(** X11: the body of a 200 response returns the submitted [input] as it
    came, under [sanitizedOutput], with [blocked] false, and nothing is
    logged; every other response has [blocked] true and
    [sanitizedOutput] None. *)
Theorem input_is_returned_unchanged now client data store log :
  let result := validate_security cfg now client data (store, log) in
  (status_code (snd result) = 200%Z ->
   dict_get "blocked" (content (snd result)) = Some (PyBool false) /\
   dict_get "sanitizedOutput" (content (snd result))
     = Some (PyStr (input data)) /\
   headers (snd result) = [] /\
   snd (fst result) = log) /\
  (status_code (snd result) <> 200%Z ->
   dict_get "blocked" (content (snd result)) = Some (PyBool true) /\
   dict_get "sanitizedOutput" (content (snd result)) = Some PyNone).
Proof.
  intros result. subst result. unfold validate_security.
  destruct (negb _ || _ || _).
  - cbn. split; [discriminate|]. intros _. now split.
  - destruct client as [ip|].
    + destruct (check_rate_limit _ _ _ _) as [store' [[|] r|e]]; cbn.
      * split; [|congruence]. intros _. now repeat split.
      * split; [discriminate|]. intros _. now split.
      * split; [discriminate|]. intros _. now split.
    + cbn. split; [discriminate|]. intros _. now split.
Qed.

(** X12: A 429 response is consistent: the request has a peer, and for
    the hint [r] the rate limiter returned for its key, which is at
    least 1, the [Retry-After] header is [r] in decimal, the body has
    [retryAfter = r], and exactly one RATE_LIMIT_BLOCK record with the
    user identifier and [r] is added to the log. *)
Theorem throttled_response_is_consistent now client data store log :
  valid_config cfg ->
  let result := validate_security cfg now client data (store, log) in
  status_code (snd result) = 429%Z ->
  exists ip r,
    client = Some ip /\
    snd (check_rate_limit cfg now (get_client_key ip (userId data)) store)
      = Return false r /\
    (1 <= r)%Z /\
    headers (snd result) = [("Retry-After"%string, pretty r)] /\
    dict_get "retryAfter" (content (snd result)) = Some (PyInt r) /\
    snd (fst result) =
      log ++ [[("event_type"%string, PyStr "RATE_LIMIT_BLOCK");
               ("details"%string,
                PyDict [("userId"%string, PyStr (userId data));
                        ("retry_after"%string, PyInt r)])]].
Proof.
  intros Hcfg result. subst result. unfold validate_security.
  pose proof (rate_pos cfg Hcfg) as Hr.
  destruct (negb _ || _ || _); [discriminate|].
  destruct client as [ip|]; [|discriminate].
  destruct (check_rate_limit_cases cfg now (get_client_key ip (userId data))
              store Hcfg) as [[_ E]|[Hlt E]]; rewrite E; cbn; [discriminate|].
  intros _. eexists ip, _. split; [reflexivity|].
  split; [rewrite E; reflexivity|]. split; [|now repeat split].
  match goal with |- (1 <= py_int ?w + 1)%Z =>
    assert (Hw : 0 < w) by (apply Qlt_shift_div_l; lra);
    rewrite py_int_floor by lra;
    assert (Qfloor 0 <= Qfloor w)%Z by (apply Qfloor_resp_le; lra)
  end.
  change (Qfloor 0) with 0%Z in *. lia.
Qed.

(** X13: retrying as told works end to end when the bucket is not in
    debt: when a request is answered 429 with [retryAfter = r] and the
    bucket of its key was left with a token count that is not negative
    (as on a clock that never went back), the same request from the same
    peer, handled at a clock reading [now'] with [now' - now >= r], is
    answered 200, provided the bucket was not touched in between (other
    clients may have been served, and the log may have grown). *)
Theorem retry_after_429_gets_200
    now now' ip data store log r b' store2 log2 :
  valid_config cfg ->
  let result := validate_security cfg now (Some ip) data (store, log) in
  status_code (snd result) = 429%Z ->
  dict_get "retryAfter" (content (snd result)) = Some (PyInt r) ->
  fst (fst result) !! get_client_key ip (userId data) = Some b' ->
  0 <= tokens b' ->
  store2 !! get_client_key ip (userId data) = Some b' ->
  inject_Z r <= now' - now ->
  status_code (snd (validate_security cfg now' (Some ip) data (store2, log2)))
    = 200%Z.
Proof.
  intros Hcfg result. subst result. unfold validate_security.
  pose proof (rate_pos cfg Hcfg) as Hr. pose proof (capacity_ge_1 cfg Hcfg) as Hc.
  destruct (negb _ || _ || _); [discriminate|].
  set (key := get_client_key ip (userId data)).
  destruct (check_rate_limit_cases cfg now key store Hcfg)
    as [[_ E]|[Hlt E]]; rewrite E; cbn; [discriminate|].
  intros _ [= <-]. rewrite lookup_insert_eq. intros [= <-] _ Hsame Hwait.
  rewrite check_rate_limit_admit; [reflexivity|].
  set (t := refilled_tokens cfg now (lookup_bucket cfg now key store)) in *.
  assert (Hl : forall x, lookup_bucket cfg x key store2 = Bucket t now)
    by (intros x; unfold lookup_bucket; now rewrite Hsame).
  rewrite Hl. unfold refilled_tokens. cbn [tokens last_refill].
  set (wait := (1 - t) / rate) in *.
  assert (Hw : 0 < wait) by (apply Qlt_shift_div_l; lra).
  rewrite py_int_floor in Hwait by lra.
  pose proof (Qlt_floor wait) as Hfl.
  assert (Hwr : wait * rate == 1 - t) by (unfold wait; field; lra).
  apply py_min_glb; [assumption|].
  assert (wait * rate < (now' - now) * rate)
    by (apply Qmult_lt_compat_r; [assumption|lra]).
  lra.
Qed.

(** X14: what a client is answered depends on the store through the
    bucket of its own key only, and a request of a client with another
    key (or without a peer) leaves that bucket alone: serving the other
    client first does not change the answer. *)
Theorem other_clients_do_not_change_the_answer
    now1 client1 data1 now2 client2 data2 store log :
  (forall ip1 ip2, client1 = Some ip1 -> client2 = Some ip2 ->
     get_client_key ip1 (userId data1) <> get_client_key ip2 (userId data2)) ->
  snd (validate_security cfg now2 client2 data2
         (fst (validate_security cfg now1 client1 data1 (store, log))))
  = snd (validate_security cfg now2 client2 data2 (store, log)).
Proof.
  intros Hne. destruct client2 as [ip2|].
  - assert (Hkeep : exists store1 log1,
      fst (validate_security cfg now1 client1 data1 (store, log))
        = (store1, log1) /\
      store1 !! get_client_key ip2 (userId data2)
        = store !! get_client_key ip2 (userId data2)).
    { unfold validate_security. destruct (negb _ || _ || _).
      - now exists store, log.
      - destruct client1 as [ip1|]; [|now eexists store, _].
        specialize (Hne ip1 ip2 eq_refl eq_refl).
        destruct (check_rate_limit_store cfg now1
                    (get_client_key ip1 (userId data1)) store) as [t Hst].
        destruct (check_rate_limit _ _ _ _) as [store1 [[|] r|e]];
          cbn [fst] in Hst; subst store1; eexists _, _;
          (split; [reflexivity|]); cbn [negb]; now apply lookup_insert_ne. }
    destruct Hkeep as (store1 & log1 & -> & Hkeep).
    apply (check_rate_limit_outcome_agree now2) in Hkeep.
    unfold validate_security. destruct (negb _ || _ || _); [reflexivity|].
    destruct (check_rate_limit cfg now2 _ store1) as [s1 o1],
             (check_rate_limit cfg now2 _ store) as [s2 o2].
    cbn [snd] in Hkeep. subst o2. destruct o1 as [[|] r|e]; reflexivity.
  - destruct (validate_security cfg now1 client1 data1 (store, log))
      as [[store1 log1] resp1]. cbn [fst].
    unfold validate_security. now destruct (negb _ || _ || _).
Qed.

End Endpoint_facts.

(** * Properties of sequences of requests *)

Section Serving.
Context (cfg : config).
Implicit Types (store : rate_limit_store) (log : list pydict)
  (requests : list (Q * option string * SecurityRequest)).

Lemma serve_cons now client data requests state :
  serve cfg ((now, client, data) :: requests) state =
    (fst (serve cfg requests (fst (validate_security cfg now client data state))),
     snd (validate_security cfg now client data state)
       :: snd (serve cfg requests
                 (fst (validate_security cfg now client data state)))).
Proof.
  cbn [serve]. destruct (validate_security cfg now client data state) as [s1 r1].
  cbn [fst snd]. now destruct (serve cfg requests s1).
Qed.

(** One request, seen from the rate limiter: a malformed one and one
    without a peer leave the store alone; a well-formed one with a peer
    does to the store what the call of [check_rate_limit] on its key
    does. *)
Lemma validate_security_store now client data store log :
  fst (fst (validate_security cfg now client data (store, log))) =
    match client with
    | Some ip =>
        if well_formed data
        then fst (check_rate_limit cfg now (get_client_key ip (userId data))
                    store)
        else store
    | None => store
    end.
Proof.
  unfold validate_security. destruct (well_formed data) eqn:Hwf.
  - rewrite (validation_passes data Hwf). destruct client as [ip|]; [|now cbn].
    destruct (check_rate_limit _ _ _ _) as [store' [[|] r|e]]; now cbn.
  - rewrite (validation_fails data Hwf). now destruct client.
Qed.

(** X15: seen from the bucket store, serving a list of requests is running
    [check_rate_limit] on the keys of the well-formed requests that have
    a peer, in order: malformed requests and requests without a peer
    leave no trace in the store. *)
Theorem serve_store_is_run_of_well_formed requests store log :
  fst (fst (serve cfg requests (store, log))) =
    fst (run cfg (limiter_calls requests) store).
Proof.
  revert store log. induction requests as [|[[now client] data] rest IH];
    intros store log; [now cbn|].
  rewrite serve_cons. cbn [fst snd limiter_calls].
  pose proof (validate_security_store now client data store log) as Hst.
  destruct (validate_security cfg now client data (store, log))
    as [[store1 log1] resp].
  cbn [fst snd] in *. subst store1. rewrite IH.
  destruct client as [ip|]; [|reflexivity].
  destruct (well_formed data); [|reflexivity].
  rewrite run_cons. reflexivity.
Qed.

(** X17: the log only grows, by one record for every request answered 429
    or 500 and by nothing for the others; and every request gets one
    response. *)
Theorem log_grows_with_blocked_requests requests store log :
  length (snd (serve cfg requests (store, log))) = length requests /\
  exists events,
    snd (fst (serve cfg requests (store, log))) = log ++ events /\
    length events =
      length (List.filter is_logged (snd (serve cfg requests (store, log)))).
Proof.
  revert store log. induction requests as [|[[now client] data] rest IH];
    intros store log.
  - cbn. split; [reflexivity|]. exists []. now rewrite app_nil_r.
  - rewrite serve_cons. cbn [fst snd length List.filter].
    assert (Hone : exists store1 ev,
      validate_security cfg now client data (store, log)
        = ((store1, log ++ ev),
           snd (validate_security cfg now client data (store, log))) /\
      length ev =
        if is_logged (snd (validate_security cfg now client data (store, log)))
        then 1%nat else 0%nat).
    { unfold validate_security. destruct (negb _ || _ || _).
      - exists store, []. now rewrite app_nil_r.
      - destruct client as [ip|]; [|eexists store, [_]; split; reflexivity].
        destruct (check_rate_limit _ _ _ _) as [store' [[|] r|e]]; cbn.
        + exists store', []. now rewrite app_nil_r.
        + eexists store', [_]. split; reflexivity.
        + eexists store', [_]. split; reflexivity. }
    destruct Hone as (store1 & ev & E & Hev). rewrite E. cbn [fst snd].
    destruct (IH store1 (log ++ ev)) as (Hlen & events & Hlog & Hn).
    split; [now rewrite Hlen|].
    exists (ev ++ events). split; [now rewrite Hlog, app_assoc|].
    rewrite length_app, Hev, Hn.
    now destruct (is_logged _).
Qed.

End Serving.

(** * The further theorems at concrete inputs *)

Lemma admission_takes_one_token_witness :
  check_rate_limit main_config 0 demo_key ∅ =
    (fst (check_rate_limit main_config 0 demo_key ∅), Return true 0) /\
  (0%Z = 0%Z /\
   exists b',
     fst (check_rate_limit main_config 0 demo_key ∅) !! demo_key = Some b' /\
     tokens b' =
       py_min (inject_Z (BURST_LIMIT main_config))
         (tokens (lookup_bucket main_config 0 demo_key ∅)
          + (0 - last_refill (lookup_bucket main_config 0 demo_key ∅))
            * REFILL_RATE main_config) - 1 /\
     0 <= tokens b' <= inject_Z (BURST_LIMIT main_config) - 1).
Proof.
  assert (H : check_rate_limit main_config 0 demo_key ∅ =
                (fst (check_rate_limit main_config 0 demo_key ∅), Return true 0))
    by (apply injective_projections; [reflexivity | vm_compute; reflexivity]).
  split; [exact H|].
  exact (admission_takes_one_token main_config 0 demo_key ∅ _ 0%Z H).
Defined.

Lemma store_after_burst_bucket :
  store_after_burst !! demo_key
    = Some (lookup_bucket main_config 0 demo_key store_after_burst).
Proof. vm_compute. reflexivity. Defined.

Lemma spaced_call_is_admitted_witness :
  valid_config main_config /\
  store_after_burst !! demo_key
    = Some (lookup_bucket main_config 0 demo_key store_after_burst) /\
  0 <= tokens (lookup_bucket main_config 0 demo_key store_after_burst) /\
  last_refill (lookup_bucket main_config 0 demo_key store_after_burst)
    + 1 / REFILL_RATE main_config <= 2 /\
  snd (check_rate_limit main_config 2 demo_key store_after_burst)
    = Return true 0.
Proof.
  assert (H1 : 0 <= tokens (lookup_bucket main_config 0 demo_key store_after_burst))
    by (vm_compute; discriminate).
  assert (H2 : last_refill (lookup_bucket main_config 0 demo_key store_after_burst)
               + 1 / REFILL_RATE main_config <= 2)
    by (vm_compute; discriminate).
  split; [exact main_config_valid|]. split; [exact store_after_burst_bucket|].
  split; [exact H1|]. split; [exact H2|].
  exact (spaced_call_is_admitted main_config 2 demo_key store_after_burst _
           main_config_valid store_after_burst_bucket H1 H2).
Defined.

Lemma idle_bucket_is_full_again_witness :
  valid_config main_config /\
  store_after_burst !! demo_key
    = Some (lookup_bucket main_config 0 demo_key store_after_burst) /\
  0 <= tokens (lookup_bucket main_config 0 demo_key store_after_burst) /\
  last_refill (lookup_bucket main_config 0 demo_key store_after_burst)
    + inject_Z (BURST_LIMIT main_config) / REFILL_RATE main_config <= 16 /\
  snd (check_rate_limit main_config 16 demo_key store_after_burst)
    = Return true 0 /\
  exists b',
    fst (check_rate_limit main_config 16 demo_key store_after_burst)
      !! demo_key = Some b' /\
    tokens b' == inject_Z (BURST_LIMIT main_config) - 1.
Proof.
  assert (H1 : 0 <= tokens (lookup_bucket main_config 0 demo_key store_after_burst))
    by (vm_compute; discriminate).
  assert (H2 : last_refill (lookup_bucket main_config 0 demo_key store_after_burst)
               + inject_Z (BURST_LIMIT main_config) / REFILL_RATE main_config
               <= 16)
    by (vm_compute; discriminate).
  split; [exact main_config_valid|]. split; [exact store_after_burst_bucket|].
  split; [exact H1|]. split; [exact H2|].
  exact (idle_bucket_is_full_again main_config 16 demo_key store_after_burst _
           main_config_valid store_after_burst_bucket H1 H2).
Defined.

Lemma retry_hints_are_bounded_witness :
  valid_config main_config /\
  clock_monotone burst_then_retry /\
  Forall (fun out =>
            out = Return true 0 \/
            exists r, out = Return false r /\
                      (1 <= r <= 60 / RATE_LIMIT main_config + 1)%Z)
         (snd (run main_config burst_then_retry ∅)).
Proof.
  assert (H : clock_monotone burst_then_retry).
  { unfold clock_monotone. cbn. repeat constructor; unfold Qle; cbn; lia. }
  split; [exact main_config_valid|]. split; [exact H|].
  exact (retry_hints_are_bounded main_config burst_then_retry
           main_config_valid H).
Defined.

Lemma get_client_key_shared_component_witness :
  get_client_key "1.2.3.4" "u1-x" = get_client_key "x-1.2.3.4" "u1" /\
  ("u1-x"%string = "u1"%string <-> "1.2.3.4"%string = "x-1.2.3.4"%string).
Proof.
  split; [reflexivity|].
  exact (get_client_key_shared_component "1.2.3.4" "u1-x" "x-1.2.3.4" "u1"
           eq_refl).
Defined.

Lemma malformed_request_is_refused_witness :
  well_formed empty_input_request = false /\
  fst (validate_security main_config 0 (Some "1.2.3.4"%string)
         empty_input_request (store_after_burst, []))
    = (store_after_burst, []) /\
  status_code (snd (validate_security main_config 0 (Some "1.2.3.4"%string)
                      empty_input_request (store_after_burst, []))) = 400%Z /\
  dict_get "blocked"
    (content (snd (validate_security main_config 0 (Some "1.2.3.4"%string)
                     empty_input_request (store_after_burst, []))))
    = Some (PyBool true).
Proof.
  split; [reflexivity|].
  exact (malformed_request_is_refused main_config 0 (Some "1.2.3.4"%string)
           empty_input_request store_after_burst [] eq_refl).
Defined.

Lemma empty_store_bounded : tokens_bounded main_config ∅.
Proof. intros key b H. rewrite lookup_empty in H. discriminate H. Defined.

Lemma empty_store_refilled_by : refilled_by 0 ∅.
Proof. intros key b H. rewrite lookup_empty in H. discriminate H. Defined.

Lemma response_status_witness :
  valid_config main_config /\
  tokens_bounded main_config ∅ /\
  refilled_by 0 ∅ /\
  ((status_code (snd (validate_security main_config 0 None demo_request
                        (∅, []))) = 400%Z /\
    well_formed demo_request = false) \/
   (status_code (snd (validate_security main_config 0 None demo_request
                        (∅, []))) = 500%Z /\
    well_formed demo_request = true /\ (None : option string) = None) \/
   (exists ip, None = Some ip /\ well_formed demo_request = true /\
      status_code (snd (validate_security main_config 0 None demo_request
                          (∅, []))) = 200%Z /\
      snd (check_rate_limit main_config 0
             (get_client_key ip (userId demo_request)) ∅) = Return true 0) \/
   (exists ip r, None = Some ip /\ well_formed demo_request = true /\
      status_code (snd (validate_security main_config 0 None demo_request
                          (∅, []))) = 429%Z /\
      snd (check_rate_limit main_config 0
             (get_client_key ip (userId demo_request)) ∅) = Return false r)).
Proof.
  split; [exact main_config_valid|]. split; [exact empty_store_bounded|].
  split; [exact empty_store_refilled_by|].
  exact (response_status main_config 0 None demo_request ∅ []
           main_config_valid empty_store_bounded empty_store_refilled_by).
Defined.

Lemma throttled_after_burst :
  status_code (snd (validate_security main_config 1 (Some "1.2.3.4"%string)
                      demo_request (store_after_burst, []))) = 429%Z.
Proof. vm_compute. reflexivity. Defined.

Lemma throttled_response_is_consistent_witness :
  valid_config main_config /\
  status_code (snd (validate_security main_config 1 (Some "1.2.3.4"%string)
                      demo_request (store_after_burst, []))) = 429%Z /\
  exists ip r,
    Some "1.2.3.4"%string = Some ip /\
    snd (check_rate_limit main_config 1
           (get_client_key ip (userId demo_request)) store_after_burst)
      = Return false r /\
    (1 <= r)%Z /\
    headers (snd (validate_security main_config 1 (Some "1.2.3.4"%string)
                    demo_request (store_after_burst, [])))
      = [("Retry-After"%string, pretty r)] /\
    dict_get "retryAfter"
      (content (snd (validate_security main_config 1 (Some "1.2.3.4"%string)
                       demo_request (store_after_burst, [])))) = Some (PyInt r) /\
    snd (fst (validate_security main_config 1 (Some "1.2.3.4"%string)
                demo_request (store_after_burst, []))) =
      [] ++ [[("event_type"%string, PyStr "RATE_LIMIT_BLOCK");
              ("details"%string,
               PyDict [("userId"%string, PyStr (userId demo_request));
                       ("retry_after"%string, PyInt r)])]].
Proof.
  split; [exact main_config_valid|]. split; [exact throttled_after_burst|].
  exact (throttled_response_is_consistent main_config 1 (Some "1.2.3.4"%string)
           demo_request store_after_burst [] main_config_valid
           throttled_after_burst).
Defined.

Lemma bucket_after_429 :
  fst (fst (validate_security main_config 1 (Some "1.2.3.4"%string)
              demo_request (store_after_burst, [])))
    !! get_client_key "1.2.3.4" (userId demo_request)
  = Some (lookup_bucket main_config 0 demo_key
            (fst (check_rate_limit main_config 1 demo_key store_after_burst))).
Proof. vm_compute. reflexivity. Defined.

Lemma retry_after_429_gets_200_witness :
  valid_config main_config /\
  status_code (snd (validate_security main_config 1 (Some "1.2.3.4"%string)
                      demo_request (store_after_burst, []))) = 429%Z /\
  dict_get "retryAfter"
    (content (snd (validate_security main_config 1 (Some "1.2.3.4"%string)
                     demo_request (store_after_burst, [])))) = Some (PyInt 1) /\
  fst (fst (validate_security main_config 1 (Some "1.2.3.4"%string)
              demo_request (store_after_burst, [])))
    !! get_client_key "1.2.3.4" (userId demo_request)
  = Some (lookup_bucket main_config 0 demo_key
            (fst (check_rate_limit main_config 1 demo_key store_after_burst))) /\
  0 <= tokens (lookup_bucket main_config 0 demo_key
                 (fst (check_rate_limit main_config 1 demo_key
                         store_after_burst))) /\
  inject_Z 1 <= 2 - 1 /\
  status_code
    (snd (validate_security main_config 2 (Some "1.2.3.4"%string) demo_request
            (fst (fst (validate_security main_config 1 (Some "1.2.3.4"%string)
                         demo_request (store_after_burst, []))), [])))
    = 200%Z.
Proof.
  assert (H : dict_get "retryAfter"
    (content (snd (validate_security main_config 1 (Some "1.2.3.4"%string)
                     demo_request (store_after_burst, [])))) = Some (PyInt 1))
    by (vm_compute; reflexivity).
  assert (H1 : 0 <= tokens (lookup_bucket main_config 0 demo_key
                              (fst (check_rate_limit main_config 1 demo_key
                                      store_after_burst))))
    by (vm_compute; discriminate).
  assert (H2 : inject_Z 1 <= 2 - 1) by (vm_compute; discriminate).
  split; [exact main_config_valid|]. split; [exact throttled_after_burst|].
  split; [exact H|]. split; [exact bucket_after_429|].
  split; [exact H1|]. split; [exact H2|].
  exact (retry_after_429_gets_200 main_config 1 2 "1.2.3.4" demo_request
           store_after_burst [] 1%Z _ _ [] main_config_valid
           throttled_after_burst H bucket_after_429 H1 bucket_after_429 H2).
Defined.

Lemma other_clients_do_not_change_the_answer_witness :
  (forall ip1 ip2 : string,
     Some "5.6.7.8"%string = Some ip1 -> Some "1.2.3.4"%string = Some ip2 ->
     get_client_key ip1 (userId demo_request)
       <> get_client_key ip2 (userId demo_request)) /\
  snd (validate_security main_config 1 (Some "1.2.3.4"%string) demo_request
         (fst (validate_security main_config 0 (Some "5.6.7.8"%string)
                 demo_request (store_after_burst, []))))
  = snd (validate_security main_config 1 (Some "1.2.3.4"%string) demo_request
           (store_after_burst, [])).
Proof.
  assert (H : forall ip1 ip2 : string,
     Some "5.6.7.8"%string = Some ip1 -> Some "1.2.3.4"%string = Some ip2 ->
     get_client_key ip1 (userId demo_request)
       <> get_client_key ip2 (userId demo_request)).
  { intros ip1 ip2 [= <-] [= <-]. vm_compute. discriminate. }
  split; [exact H|].
  exact (other_clients_do_not_change_the_answer main_config
           0 (Some "5.6.7.8"%string) demo_request
           1 (Some "1.2.3.4"%string) demo_request
           store_after_burst [] H).
Defined.

Lemma binary64_fresh_bucket_burst_witness :
  is_finite 1700000000%float = true /\
  (∅ : gmap string Binary64.bucket) !! demo_key = None /\
  snd (Binary64.run (replicate 12 (1700000000%float, demo_key)) ∅) =
    replicate 11 (Return true 0) ++ [Return false 2].
Proof.
  split; [reflexivity|]. split; [reflexivity|].
  exact (binary64_fresh_bucket_burst 1700000000%float demo_key ∅
           eq_refl eq_refl).
Defined.
